(** * ionic-dynamic-tabs: route generation and the tab-bar component

    A shallow embedding of [src/lib/models/tab.interface.ts],
    [src/lib/utils/route.utils.ts] and the tab-bar component
    ([components/tabs/tab-bar.component.ts]).

    JavaScript values are an inductive type; an expression that can throw
    returns a [Completion]; code that reads or writes shared objects (the
    descriptor array, the component's [tabs] field, the console and the
    icon registry) runs in the state-and-exception monad [M]. *)

From stdpp Require Import gmap strings list fin_maps.
From Stdlib Require Import ZArith.

Set Warnings "-register-all".
Open Scope Z_scope.
Open Scope stdpp_scope.

(** ** JavaScript values *)

(** An address of a descriptor array ([Tab[]]) in the store. *)
Abbreviation loc := positive.

(** What is thrown, or what a promise is rejected with. [DanglingRef] is
    not a JavaScript error: it marks an address that the store of the model
    does not hold. *)
Inductive JsError (V : Type) : Type :=
  | TypeError (msg : string)
  | Raised (v : V)
  | DanglingRef (l : loc).
Arguments TypeError {V} msg.
Arguments Raised {V} v.
Arguments DanglingRef {V} l.

(** The eventual state of a promise. *)
Inductive Settled (V : Type) : Type :=
  | Fulfilled (v : V)
  | Rejected (e : JsError V)
  | Pending.
Arguments Fulfilled {V} v.
Arguments Rejected {V} e.
Arguments Pending {V}.

(** What calling a function value with no argument does. *)
Inductive CallOutcome (V : Type) : Type :=
  | ReturnsPromise (p : Settled V)
  | ReturnsValue (v : V)
  | Throws (e : JsError V).
Arguments ReturnsPromise {V} p.
Arguments ReturnsValue {V} v.
Arguments Throws {V} e.

(** Values. A number is an integer or NaN, which is all that [ToBoolean]
    looks at. An object or a function has an identity [id] and the
    properties that [in] and a property read see on it, own or inherited;
    a function also has the outcome of calling it. None of these values is
    a thenable. *)
Inductive JsValue : Type :=
  | JsUndefined
  | JsNull
  | JsBoolean (b : bool)
  | JsNumber (n : Z)
  | JsNaN
  | JsString (s : string)
  | JsObject (id : positive) (props : list (string * JsValue))
  | JsFunction (id : positive) (props : list (string * JsValue))
               (call : CallOutcome JsValue).

Inductive Completion (A : Type) : Type :=
  | Normal (a : A)
  | Throw (e : JsError JsValue).
Arguments Normal {A} a.
Arguments Throw {A} e.

Definition cbind {A B} (c : Completion A) (k : A → Completion B) : Completion B :=
  match c with
  | Normal a => k a
  | Throw e => Throw e
  end.

(** [typeof v]. *)
Definition typeof (v : JsValue) : string :=
  match v with
  | JsUndefined => "undefined"
  | JsNull => "object"
  | JsBoolean _ => "boolean"
  | JsNumber _ | JsNaN => "number"
  | JsString _ => "string"
  | JsObject _ _ => "object"
  | JsFunction _ _ _ => "function"
  end.

(** [ToBoolean v]: the falsy values are undefined, null, false, 0, NaN
    and the empty string. *)
Definition truthy (v : JsValue) : bool :=
  match v with
  | JsUndefined | JsNull | JsNaN => false
  | JsBoolean b => b
  | JsNumber n => negb (n =? 0)
  | JsString s => negb (String.eqb s "")
  | JsObject _ _ | JsFunction _ _ _ => true
  end.

Fixpoint assoc {A} (k : string) (l : list (string * A)) : option A :=
  match l with
  | [] => None
  | (k', a) :: l' => if String.eqb k k' then Some a else assoc k l'
  end.

Definition properties (v : JsValue) : option (list (string * JsValue)) :=
  match v with
  | JsObject _ ps | JsFunction _ ps _ => Some ps
  | _ => None
  end.

(** [k in v]: a TypeError when [v] is not an object. *)
Definition js_in (k : string) (v : JsValue) : Completion bool :=
  match properties v with
  | Some ps => Normal (bool_decide (is_Some (assoc k ps)))
  | None => Throw (TypeError "Cannot use 'in' operator to search for a key in a primitive")
  end.

(** [v.k] for an object [v]: a missing property reads as undefined; reading
    a property of undefined or null throws, of another primitive gives
    undefined (none of the keys read here lives on a primitive wrapper). *)
Definition js_get (k : string) (v : JsValue) : Completion JsValue :=
  match v with
  | JsUndefined | JsNull =>
      Throw (TypeError ("Cannot read properties of undefined or null (reading '" +:+ k +:+ "')"))
  | _ => Normal (default JsUndefined (properties v ≫= assoc k))
  end.

(** [p.then(cb)]: its eventual state. *)
Definition js_then (p : Settled JsValue) (cb : JsValue → Completion JsValue)
  : Settled JsValue :=
  match p with
  | Fulfilled v =>
      match cb v with
      | Normal r => Fulfilled r
      | Throw e => Rejected e
      end
  | Rejected e => Rejected e
  | Pending => Pending
  end.

(** ** Strings *)

Fixpoint starts_with (p s : string) : bool :=
  match p, s with
  | EmptyString, _ => true
  | String a p', String b s' => if Ascii.eqb a b then starts_with p' s' else false
  | String _ _, EmptyString => false
  end.

Fixpoint string_drop (n : nat) (s : string) : string :=
  match n, s with
  | O, _ => s
  | S n', String _ s' => string_drop n' s'
  | S _, EmptyString => EmptyString
  end.

(** [s.replace(pat, rep)] with a string pattern and a replacement that has
    no [$] pattern: the leftmost occurrence of [pat] is replaced, the rest
    of [s] is kept. A string is its sequence of bytes; the pattern used
    here is ASCII, so an occurrence in the bytes is an occurrence in the
    code units. *)
Fixpoint replace (pat rep s : string) : string :=
  if starts_with pat s then rep +:+ string_drop (String.length pat) s
  else match s with
       | EmptyString => EmptyString
       | String c s' => String c (replace pat rep s')
       end.

(** ** Tab descriptors (tab.interface.ts) *)

(** [TabComponent]: a component class or a lazy loader; at run time, any
    value. *)
Abbreviation TabComponent := JsValue.

Module Tab.
Record t : Type := mk {
  name : string;
  label : string;
  iconName : string;
  urlPath : string;
  component : TabComponent
}.
End Tab.
Abbreviation Tab := Tab.t.

(** The key that [isLazyComponent] tests for, byte for byte as the source
    has it (C3 89 C2 B5, then [cmp]). *)
Definition cmp_marker : string := "Éµcmp".

(** The property that Angular's compiler defines on a component class:
    [ɵcmp], whose first character is U+0275 (bytes C9 B5). *)
Definition ng_marker : string := "ɵcmp".

(** [typeof component === 'function' && !(marker in component)]; [&&]
    evaluates its right operand only when the left one is true. *)
Definition isLazyComponent (component : TabComponent) : Completion bool :=
  if String.eqb (typeof component) "function"
  then cbind (js_in cmp_marker component) (λ b, Normal (negb b))
  else Normal false.

(** ** Routes (route.utils.ts) *)

(** A value held in a route's [data]: the descriptor array, by reference,
    or any other value. *)
Inductive RouteDatum : Type :=
  | TabsRef (l : loc)
  | Other (v : JsValue).

(** The arrow function of [createComponentRoute], as the variable it
    captures; two closures over the same component are equal. *)
Inductive Loader : Type :=
  | LoadClosure (component : TabComponent).

Module Route.
(** Angular's [Route], with the properties this library sets; an absent
    property is [None]. *)
Inductive t : Type := mk {
  path : option string;
  component : option JsValue;
  loadComponent : option Loader;
  data : option (gmap string RouteDatum);
  children : option (list t);
  redirectTo : option string;
  pathMatch : option string
}.

(** [{ ...base, ...r }]: a property of [r] overrides the one of [base]. *)
Definition spread (base r : t) : t :=
  let over {A} (x y : option A) := match y with Some _ => y | None => x end in
  mk (over (path base) (path r))
     (over (component base) (component r))
     (over (loadComponent base) (loadComponent r))
     (over (data base) (data r))
     (over (children base) (children r))
     (over (redirectTo base) (redirectTo r))
     (over (pathMatch base) (pathMatch r)).
End Route.
Abbreviation Route := Route.t.
Abbreviation Routes := (list Route.t).

(** The tab-bar component class: a compiled Angular component, which
    carries Angular's marker and cannot be called without [new]. *)
Definition TabBarComponent : JsValue :=
  JsFunction 1 [(ng_marker, JsObject 2 [])]
    (Throws (TypeError "Class constructor TabBarComponent cannot be invoked without 'new'")).

(** The body of the loader closure:
    [component().then(loaded => ('default' in loaded) ? loaded.default : loaded)]. *)
Definition unwrapDefault (loaded : JsValue) : Completion JsValue :=
  cbind (js_in "default" loaded) (λ b,
    if b then js_get "default" loaded else Normal loaded).

Definition js_call (f : JsValue) : Completion (CallOutcome JsValue) :=
  match f with
  | JsFunction _ _ call => Normal call
  | _ => Throw (TypeError "component is not a function")
  end.

Definition call_loader (f : Loader) : Completion (Settled JsValue) :=
  match f with
  | LoadClosure component =>
      cbind (js_call component) (λ out,
        match out with
        | Throws e => Throw e
        | ReturnsValue _ => Throw (TypeError "component(...).then is not a function")
        | ReturnsPromise p => Normal (js_then p unwrapDefault)
        end)
  end.

Definition createComponentRoute (component : TabComponent) : Completion Route :=
  cbind (isLazyComponent component) (λ lazy,
    if lazy
    then Normal (Route.mk None None (Some (LoadClosure component)) None None None None)
    else Normal (Route.mk None (Some component) None None None None None)).

(** The prefix that both call sites remove: [urlPath.replace('/tabs/', '')]. *)
Definition strip_tabs (urlPath : string) : string := replace "/tabs/" "" urlPath.

(** ** The store and the monad of effectful code *)

(** What the code can read or change: the descriptor arrays, by address,
    each holding descriptors of type [Tab] as the type annotations say;
    the component's [tabs] field; the messages given to [console.warn] and
    the mappings given to [addIcons], oldest first. *)
Record State : Type := mkState {
  heap : gmap loc (list Tab);
  this_tabs : RouteDatum;
  console : list string;
  registry : list (gmap string JsValue)
}.

Definition M (A : Type) : Type := State → Completion A * State.

Definition ret {A} (a : A) : M A := λ σ, (Normal a, σ).

Definition bind {A B} (m : M A) (k : A → M B) : M B :=
  λ σ, match m σ with
       | (Normal a, σ') => k a σ'
       | (Throw e, σ') => (Throw e, σ')
       end.

Definition lift {A} (c : Completion A) : M A := λ σ, (c, σ).

Declare Scope js_scope.
Delimit Scope js_scope with js.
Notation "'let!' x := m 'in' k" := (bind m (λ x, k))
  (at level 10, x name, m at level 100, k at level 200,
   format "'[v' 'let!'  x  :=  m  'in'  '/' k ']'") : js_scope.
Notation "m ;;; k" := (bind m (λ _, k))
  (at level 100, k at level 200, right associativity) : js_scope.
Open Scope js_scope.

(** The elements of the array at [l]. *)
Definition read_array (l : loc) : M (list Tab) :=
  λ σ, match heap σ !! l with
       | Some a => (Normal a, σ)
       | None => (Throw (DanglingRef l), σ)
       end.

(** [tabs[i]]: [None] is undefined. *)
Definition array_index (l : loc) (i : nat) : M (option Tab) :=
  let! a := read_array l in ret (a !! i).

(** [[]]: a new array, at an address the store does not use. *)
Definition alloc_array (a : list Tab) : M loc :=
  λ σ, let l := fresh (dom (heap σ)) in
       (Normal l, mkState (<[l := a]> (heap σ)) (this_tabs σ) (console σ) (registry σ)).

Definition get_this_tabs : M RouteDatum := λ σ, (Normal (this_tabs σ), σ).

Definition set_this_tabs (v : RouteDatum) : M unit :=
  λ σ, (Normal (), mkState (heap σ) v (console σ) (registry σ)).

Definition console_warn (msg : string) : M unit :=
  λ σ, (Normal (), mkState (heap σ) (this_tabs σ) (console σ ++ [msg]) (registry σ)).

Definition addIcons (icons : gmap string JsValue) : M unit :=
  λ σ, (Normal (), mkState (heap σ) (this_tabs σ) (console σ) (registry σ ++ [icons])).

(** [a.map(f)] and [a.reduce(f, acc)] on the elements of an array. *)
Fixpoint array_map {A B} (f : A → M B) (a : list A) : M (list B) :=
  match a with
  | [] => ret []
  | x :: a' => let! y := f x in let! ys := array_map f a' in ret (y :: ys)
  end.

Fixpoint array_reduce {A B} (f : B → A → M B) (a : list A) (acc : B) : M B :=
  match a with
  | [] => ret acc
  | x :: a' => let! acc' := f acc x in array_reduce f a' acc'
  end.

(** [t.urlPath] where [t] is [tabs[i]]. *)
Definition get_urlPath (t : option Tab) : Completion string :=
  match t with
  | Some t => Normal (Tab.urlPath t)
  | None => Throw (TypeError "Cannot read properties of undefined (reading 'urlPath')")
  end.

(** ** Route generation (route.utils.ts) *)

Definition childRoute (tab : Tab) : Completion Route :=
  let base := Route.mk (Some (strip_tabs (Tab.urlPath tab))) None None None None None None in
  cbind (createComponentRoute (Tab.component tab)) (λ r, Normal (Route.spread base r)).

Definition generateChildrenRoutes (tabs : loc) : M Routes :=
  let! elems := read_array tabs in
  array_map (λ tab, lift (childRoute tab)) elems.

Definition redirect (target : string) : Route :=
  Route.mk (Some "") None None None None (Some target) (Some "full").

Definition generateRoutes (tabs : loc) : M Routes :=
  let! kids := generateChildrenRoutes tabs in
  let! t0 := array_index tabs 0 in
  let! u0 := lift (get_urlPath t0) in
  let! t0' := array_index tabs 0 in
  let! u0' := lift (get_urlPath t0') in
  ret [ Route.mk (Some "tabs") (Some TabBarComponent) None
          (Some {[ "tabs" := TabsRef tabs ]})
          (Some (kids ++ [redirect (strip_tabs u0)])) None None;
        redirect u0' ].

(** ** The tab-bar component (tab-bar.component.ts) *)

Section TabBar.
(** [camelCase] of the change-case package and the icon catalog
    [ionicons/icons], which are not part of this repository. *)
Variable camelCase : string → string.
Variable allIcons : gmap string JsValue.

(** [allIcons[k]]: undefined when the catalog has no export [k]. *)
Definition icon_lookup (k : string) : JsValue :=
  default JsUndefined (allIcons !! k).

(** [acc[k] = v] on an object literal: a new or overwritten own property,
    except under the key [__proto__], which is the prototype accessor
    and leaves the own properties as they are. *)
Definition set_prop (acc : gmap string JsValue) (k : string) (v : JsValue)
  : gmap string JsValue :=
  if decide (k = "__proto__") then acc else <[k := v]> acc.

(** The callback of [reduce]. *)
Definition collectIcon (acc : gmap string JsValue) (tab : Tab)
  : M (gmap string JsValue) :=
  let camelCaseName := camelCase (Tab.iconName tab) in
  if truthy (icon_lookup camelCaseName)
  then ret (set_prop acc (Tab.iconName tab) (icon_lookup camelCaseName))
  else console_warn ("Icon not found: " +:+ Tab.iconName tab) ;;; ret acc.

(** [this.tabs.reduce(...)] needs [this.tabs] to be an array: no other
    value of the model has a [reduce] method, and the call is a TypeError. *)
Definition initializeRequiredIcons : M unit :=
  let! tabs := get_this_tabs in
  match tabs with
  | TabsRef l =>
      let! elems := read_array l in
      let! requiredIcons := array_reduce collectIcon elems ∅ in
      addIcons requiredIcons
  | Other _ => lift (Throw (TypeError "this.tabs.reduce is not a function"))
  end.

Definition datum_truthy (d : RouteDatum) : bool :=
  match d with
  | TabsRef _ => true
  | Other v => truthy v
  end.

(** [this.tabs = this.route.snapshot.data['tabs'] || []] and the icon
    set-up; [data] is the route snapshot's data object. *)
Definition ngOnInit (data : gmap string RouteDatum) : M unit :=
  let found := default (Other JsUndefined) (data !! "tabs") in
  let! tabs := (if datum_truthy found then ret found
                else let! l := alloc_array [] in ret (TabsRef l)) in
  set_this_tabs tabs ;;;
  initializeRequiredIcons.

(** The reduction in closed form: whether a descriptor's icon is
    resolved, the mapping that is built and the warnings that are
    printed. *)
Definition resolved (tab : Tab) : bool :=
  truthy (icon_lookup (camelCase (Tab.iconName tab))).

Definition icons_of (D : list Tab) (acc : gmap string JsValue)
  : gmap string JsValue :=
  foldl (λ acc tab,
           if resolved tab
           then set_prop acc (Tab.iconName tab)
                  (icon_lookup (camelCase (Tab.iconName tab)))
           else acc) acc D.

Definition warnings_of (D : list Tab) : list string :=
  (λ tab, "Icon not found: " +:+ Tab.iconName tab) <$>
    filter (λ tab, resolved tab = false) D.
End TabBar.

(** ** Notions used to state the properties *)

(** A value that can be called, and a value that carries the component
    marker among its properties. *)
Definition callable (v : JsValue) : Prop :=
  ∃ id ps call, v = JsFunction id ps call.

Definition has_property (k : string) (v : JsValue) : Prop :=
  ∃ ps x, properties v = Some ps ∧ (k, x) ∈ ps.

(** An object whose property [k] reads as [x]. *)
Definition exposes (k : string) (v x : JsValue) : Prop :=
  ∃ ps, properties v = Some ps ∧ assoc k ps = Some x.

(** An object without a property [k]. *)
Definition object_without (k : string) (v : JsValue) : Prop :=
  ∃ ps, properties v = Some ps ∧ assoc k ps = None.

(** The direct and the deferred binding of a view reference. *)
Definition direct_binding (ref : JsValue) : Route :=
  Route.mk None (Some ref) None None None None None.

Definition deferred_binding (ref : JsValue) : Route :=
  Route.mk None None (Some (LoadClosure ref)) None None None None.

(** What the two functions compute on every input, in closed form. *)
Definition lazy_ref (v : JsValue) : bool :=
  match v with
  | JsFunction _ ps _ => negb (bool_decide (is_Some (assoc cmp_marker ps)))
  | _ => false
  end.

Definition view_binding (ref : JsValue) : Route :=
  if lazy_ref ref then deferred_binding ref else direct_binding ref.

Definition child_entry (tab : Tab) : Route :=
  Route.mk (Some (strip_tabs (Tab.urlPath tab)))
    (Route.component (view_binding (Tab.component tab)))
    (Route.loadComponent (view_binding (Tab.component tab)))
    None None None None.

Definition parent_route (tabs : loc) (kids : Routes) : Route :=
  Route.mk (Some "tabs") (Some TabBarComponent) None
    (Some {[ "tabs" := TabsRef tabs ]}) (Some kids) None None.

(** Removal of every occurrence of a non-empty [pat], left to right; this
    is not what the code does, it is what [strip_tabs] is compared with. *)
Fixpoint remove_all_from (pat : string) (skip : nat) (s : string) : string :=
  match s with
  | EmptyString => EmptyString
  | String c s' =>
      match skip with
      | S k => remove_all_from pat k s'
      | O => if starts_with pat s
             then remove_all_from pat (Nat.pred (String.length pat)) s'
             else String c (remove_all_from pat O s')
      end
  end.

Definition strip_everywhere (urlPath : string) : string :=
  remove_all_from "/tabs/" O urlPath.

(** Structural equality of route tables: property by property, a
    descriptor array being compared by its elements and not by its
    address. *)
Definition datum_sim (h1 h2 : gmap loc (list Tab)) (d1 d2 : RouteDatum) : Prop :=
  match d1, d2 with
  | TabsRef l1, TabsRef l2 => is_Some (h1 !! l1) ∧ h1 !! l1 = h2 !! l2
  | Other v1, Other v2 => v1 = v2
  | _, _ => False
  end.

Definition data_sim (h1 h2 : gmap loc (list Tab))
    (m1 m2 : option (gmap string RouteDatum)) : Prop :=
  match m1, m2 with
  | None, None => True
  | Some a, Some b => ∀ k, option_Forall2 (datum_sim h1 h2) (a !! k) (b !! k)
  | _, _ => False
  end.

Fixpoint list_sim {A} (R : A → A → Prop) (l1 l2 : list A) : Prop :=
  match l1, l2 with
  | [], [] => True
  | x :: l1', y :: l2' => R x y ∧ list_sim R l1' l2'
  | _, _ => False
  end.

Fixpoint route_sim (h1 h2 : gmap loc (list Tab)) (r1 r2 : Route) {struct r1} : Prop :=
  Route.path r1 = Route.path r2 ∧
  Route.component r1 = Route.component r2 ∧
  Route.loadComponent r1 = Route.loadComponent r2 ∧
  data_sim h1 h2 (Route.data r1) (Route.data r2) ∧
  match Route.children r1, Route.children r2 with
  | None, None => True
  | Some c1, Some c2 => list_sim (route_sim h1 h2) c1 c2
  | _, _ => False
  end ∧
  Route.redirectTo r1 = Route.redirectTo r2 ∧
  Route.pathMatch r1 = Route.pathMatch r2.

(** The state after [warnings] were printed and [icons] registered. *)
Definition after_icons (σ : State) (warnings : list string)
    (icons : gmap string JsValue) : State :=
  mkState (heap σ) (this_tabs σ) (console σ ++ warnings) (registry σ ++ [icons]).

(** ** The configuration of the README, used for concrete instances *)

Module Readme.
(** The page classes are compiled Angular components. *)
Definition HomePage : JsValue :=
  JsFunction 10 [(ng_marker, JsObject 11 [])]
    (Throws (TypeError "Class constructor HomePage cannot be invoked without 'new'")).

Definition SettingsPage : JsValue :=
  JsFunction 12 [(ng_marker, JsObject 13 [])]
    (Throws (TypeError "Class constructor SettingsPage cannot be invoked without 'new'")).

(** [() => import('./pages/settings/settings.page').then(m => m.SettingsPage)] *)
Definition loadSettings : JsValue :=
  JsFunction 14 [] (ReturnsPromise (Fulfilled SettingsPage)).

Definition APP_TABS : list Tab :=
  [ Tab.mk "home" "Home" "home-outline" "/tabs/home" HomePage;
    Tab.mk "settings" "Settings" "settings-outline" "/tabs/settings" loadSettings ].

(** A state in which [APP_TABS] lives at address 5 and a copy of it at
    address 6. *)
Definition store : State :=
  mkState {[ 5%positive := APP_TABS; 6%positive := APP_TABS ]}
          (TabsRef 5) [] [].

(** A case conversion and a catalog to run the component with: the
    catalog has the home icon and no settings icon. *)
Definition camelCase (s : string) : string :=
  if String.eqb s "home-outline" then "homeOutline"
  else if String.eqb s "settings-outline" then "settingsOutline"
  else if String.eqb s "__proto__" then "proto"
  else s.

Definition allIcons : gmap string JsValue :=
  {[ "homeOutline" := JsString "data:image/svg+xml;utf8,<svg class='ionicon'/>" ]}.
End Readme.

(** * Properties *)

(** ** String replacement *)

Lemma starts_with_app (p s : string) : starts_with p (p +:+ s) = true.
Proof.
  induction p as [|a p IH]; simpl; [done|].
  by rewrite Ascii.eqb_refl.
Qed.

Lemma string_drop_app (p s : string) : string_drop (String.length p) (p +:+ s) = s.
Proof. induction p as [|a p IH]; simpl; [by destruct s|done]. Qed.

Lemma replace_unfold (pat rep s : string) :
  replace pat rep s =
  if starts_with pat s then rep +:+ string_drop (String.length pat) s
  else match s with
       | EmptyString => EmptyString
       | String c s' => String c (replace pat rep s')
       end.
Proof. by destruct s. Qed.

(** The leftmost occurrence, and only that one, is replaced. *)
Lemma replace_leftmost (pat rep pre post : string) :
  (∀ i, (i < String.length pre)%nat →
        starts_with pat (string_drop i (pre +:+ pat +:+ post)) = false) →
  replace pat rep (pre +:+ pat +:+ post) = pre +:+ rep +:+ post.
Proof.
  induction pre as [|c pre IH]; intros Hno.
  - change ("" +:+ pat +:+ post) with (pat +:+ post).
    rewrite replace_unfold, starts_with_app, string_drop_app. done.
  - change (String c pre +:+ pat +:+ post) with (String c (pre +:+ pat +:+ post)).
    rewrite replace_unfold.
    pose proof (Hno O ltac:(simpl; lia)) as H0. simpl in H0.
    change (String c pre +:+ pat +:+ post)
      with (String c (pre +:+ pat +:+ post)) in H0.
    rewrite H0. rewrite IH; [done|].
    intros i Hi. apply (Hno (S i)). simpl. lia.
Qed.

(** A string without an occurrence is returned as it is. *)
Lemma replace_absent (pat rep s : string) :
  (∀ i, starts_with pat (string_drop i s) = false) →
  replace pat rep s = s.
Proof.
  induction s as [|c s IH]; intros Hno.
  - pose proof (Hno O) as H0. simpl in H0.
    rewrite replace_unfold. by rewrite H0.
  - pose proof (Hno O) as H0. simpl in H0.
    rewrite replace_unfold, H0. f_equal. apply IH.
    intros i. apply (Hno (S i)).
Qed.

Lemma strip_tabs_prefix (rest : string) : strip_tabs ("/tabs/" +:+ rest) = rest.
Proof.
  apply (replace_leftmost "/tabs/" "" "" rest).
  intros i Hi. simpl in Hi. lia.
Qed.

(** C5, as the claim states it, fails: on ['/tabs/a/tabs/b'] the code
    removes the leading occurrence only and returns ['a/tabs/b'], whereas
    removing both occurrences would give ['ab']. *)
Lemma strip_tabs_not_everywhere :
  strip_tabs "/tabs/a/tabs/b" = "a/tabs/b" ∧
  strip_everywhere "/tabs/a/tabs/b" = "ab" ∧
  strip_tabs "/tabs/a/tabs/b" ≠ strip_everywhere "/tabs/a/tabs/b".
Proof. split; [reflexivity|]. split; [reflexivity|]. discriminate. Qed.

(** C5, amended: the stripping step removes the leftmost occurrence of
    ['/tabs/'], wherever in the path it starts and not only at the start,
    and nothing else: what follows that occurrence is kept as it is, also
    when it holds further occurrences; a path without an occurrence is
    returned unchanged. *)
Theorem strip_tabs_leftmost (pre post : string) :
  (∀ i, (i < String.length pre)%nat →
        starts_with "/tabs/" (string_drop i (pre +:+ "/tabs/" +:+ post)) = false) →
  strip_tabs (pre +:+ "/tabs/" +:+ post) = pre +:+ post ∧
  strip_tabs ("/tabs/" +:+ post) = post ∧
  (∀ s, (∀ i, starts_with "/tabs/" (string_drop i s) = false) → strip_tabs s = s).
Proof.
  intros Hno. split; [|split].
  - unfold strip_tabs. by rewrite (replace_leftmost "/tabs/" "" pre post).
  - apply strip_tabs_prefix.
  - intros s Hs. by apply replace_absent.
Qed.

Lemma strip_tabs_leftmost_witness :
  strip_tabs ("x" +:+ "/tabs/" +:+ "y/tabs/z") = "x" +:+ "y/tabs/z" ∧
  strip_tabs ("/tabs/" +:+ "y/tabs/z") = "y/tabs/z" ∧
  (∀ s, (∀ i, starts_with "/tabs/" (string_drop i s) = false) → strip_tabs s = s).
Proof.
  apply (strip_tabs_leftmost "x" "y/tabs/z").
  intros i Hi. simpl in Hi.
  assert (i = O) as -> by lia. reflexivity.
Defined.

(** ** View resolution *)

Lemma assoc_is_Some {A} (k : string) (ps : list (string * A)) :
  is_Some (assoc k ps) ↔ ∃ x, (k, x) ∈ ps.
Proof.
  induction ps as [|[k' a] ps IH]; simpl.
  - split; [intros [? ?]; done|intros [x Hx]; by apply elem_of_nil in Hx].
  - destruct (String.eqb_spec k k') as [->|Hne].
    + split; [intros _; exists a; left|intros _; by eexists].
    + rewrite IH. split; intros [x Hx]; exists x.
      * by right.
      * apply elem_of_cons in Hx as [Hx|Hx]; [congruence|done].
Qed.

Lemma isLazyComponent_eq (ref : JsValue) : isLazyComponent ref = Normal (lazy_ref ref).
Proof. by destruct ref. Qed.

Lemma lazy_ref_spec (ref : JsValue) :
  lazy_ref ref = true ↔ callable ref ∧ ¬ has_property cmp_marker ref.
Proof.
  split.
  - destruct ref as [| | | | | |id ps|id ps call]; simpl; try discriminate.
    intros Hm%negb_true_iff%bool_decide_eq_false. split.
    + by exists id, ps, call.
    + intros (ps' & x & Hps & Hx). simpl in Hps. simplify_eq.
      apply Hm, assoc_is_Some. by exists x.
  - intros [(id & ps & call & ->) Hm]. simpl.
    apply negb_true_iff, bool_decide_eq_false.
    intros [x Hx]%assoc_is_Some. apply Hm. by exists ps, x.
Qed.

Lemma createComponentRoute_eq (ref : JsValue) :
  createComponentRoute ref = Normal (view_binding ref).
Proof.
  unfold createComponentRoute, view_binding. rewrite isLazyComponent_eq. simpl.
  by destruct (lazy_ref ref).
Qed.

Lemma childRoute_eq (tab : Tab) : childRoute tab = Normal (child_entry tab).
Proof.
  unfold childRoute, child_entry. rewrite createComponentRoute_eq. simpl.
  unfold view_binding. by destruct (lazy_ref (Tab.component tab)).
Qed.

(** What the test decides, for the key that the source tests: a view
    reference is classified as deferred exactly when it is callable and
    lacks the key [cmp_marker]; the classification never throws; a
    reference classified as direct gives the binding [{ component: ref }]
    and nothing else, a deferred one the binding [{ loadComponent }] whose
    loader captures that reference. *)
Lemma createComponentRoute_classifies (ref : JsValue) :
  (isLazyComponent ref = Normal true ↔
     callable ref ∧ ¬ has_property cmp_marker ref) ∧
  (isLazyComponent ref = Normal true ∨ isLazyComponent ref = Normal false) ∧
  (isLazyComponent ref = Normal false →
     createComponentRoute ref =
       Normal (Route.mk None (Some ref) None None None None None)) ∧
  (isLazyComponent ref = Normal true →
     createComponentRoute ref =
       Normal (Route.mk None None (Some (LoadClosure ref)) None None None None)).
Proof.
  rewrite createComponentRoute_eq, isLazyComponent_eq. unfold view_binding.
  split; [|split; [|split]].
  - rewrite <- lazy_ref_spec. split; [by intros [= ->]|by intros ->].
  - destruct (lazy_ref ref); auto.
  - by intros [= ->].
  - by intros [= ->].
Qed.

(** C3, a defect of the code: the claim, like the docstring of
    [isLazyComponent] ([isLazyComponent(HomePage) // false]) and that of
    [createComponentRoute] ([{ component: HomePage }]), says that a view
    reference that is callable and carries the framework's marker is
    classified as direct. The key the code tests is not the framework's
    marker: a component class, which is callable and carries [ɵcmp], is
    classified as deferred and bound as [{ loadComponent }], and loading
    it calls the class without [new], which throws. *)
Theorem isLazyComponent_misses_component_class :
  cmp_marker ≠ ng_marker ∧
  callable Readme.HomePage ∧
  has_property ng_marker Readme.HomePage ∧
  isLazyComponent Readme.HomePage = Normal true ∧
  createComponentRoute Readme.HomePage =
    Normal (Route.mk None None (Some (LoadClosure Readme.HomePage))
                     None None None None) ∧
  ∃ msg, call_loader (LoadClosure Readme.HomePage) = Throw (TypeError msg).
Proof.
  split; [discriminate|]. split; [by eexists _, _, _|]. split.
  - eexists _, _. split; [reflexivity|]. left.
  - split; [reflexivity|]. split; [reflexivity|]. by eexists.
Qed.

(** The same for every class: whatever carries the framework's marker and
    not the key the source tests is classified as deferred. *)
Lemma isLazyComponent_ignores_ng_marker (id : positive) (ps : list (string * JsValue))
    (call : CallOutcome JsValue) :
  assoc cmp_marker ps = None →
  isLazyComponent (JsFunction id ps call) = Normal true.
Proof.
  intros Hkey. rewrite isLazyComponent_eq. simpl. rewrite Hkey.
  by rewrite bool_decide_eq_false_2 by (by intros [? ?]).
Qed.

(** C4: for a deferred loader whose promise is fulfilled with [loaded],
    the route's [loadComponent], when called, returns a promise fulfilled
    with the value under [default] if [loaded] is an object exposing that
    property, and with [loaded] itself if it is an object without it. *)
Theorem loadComponent_unwraps_default (ref loaded : JsValue) :
  isLazyComponent ref = Normal true →
  js_call ref = Normal (ReturnsPromise (Fulfilled loaded)) →
  ∃ r ld,
    createComponentRoute ref = Normal r ∧
    Route.loadComponent r = Some ld ∧
    Route.component r = None ∧
    (∀ v, exposes "default" loaded v → call_loader ld = Normal (Fulfilled v)) ∧
    (object_without "default" loaded → call_loader ld = Normal (Fulfilled loaded)).
Proof.
  intros Hlazy Hcall.
  exists (deferred_binding ref), (LoadClosure ref).
  rewrite createComponentRoute_eq. unfold view_binding.
  rewrite isLazyComponent_eq in Hlazy. injection Hlazy as ->.
  split; [done|]. split; [done|]. split; [done|].
  unfold call_loader. rewrite Hcall. simpl. unfold unwrapDefault, js_in, js_get.
  split.
  - intros v (ps & Hps & Hv). rewrite Hps. simpl. rewrite Hv.
    rewrite bool_decide_eq_true_2 by eauto.
    destruct loaded; simplify_eq/=; by rewrite ?Hv.
  - intros (ps & Hps & Hv). rewrite Hps. simpl. rewrite Hv.
    by rewrite bool_decide_eq_false_2 by (intros [? ?]; done).
Qed.

(** A loader resolving to a primitive: the test ['default' in loaded]
    throws inside the callback, so the promise is rejected. *)
Lemma loadComponent_primitive (ref loaded : JsValue) :
  js_call ref = Normal (ReturnsPromise (Fulfilled loaded)) →
  properties loaded = None →
  ∃ msg, call_loader (LoadClosure ref) = Normal (Rejected (TypeError msg)).
Proof.
  intros Hcall Hprim. unfold call_loader. rewrite Hcall. simpl.
  unfold unwrapDefault, js_in. rewrite Hprim. simpl. by eexists.
Qed.

(** A rejection of the loader's promise is passed on unchanged. *)
Lemma loadComponent_rejection (ref : JsValue) (e : JsError JsValue) :
  js_call ref = Normal (ReturnsPromise (Rejected e)) →
  call_loader (LoadClosure ref) = Normal (Rejected e).
Proof. intros Hcall. unfold call_loader. by rewrite Hcall. Qed.

Lemma loadComponent_unwraps_default_witness :
  let module := JsObject 20 [("default", Readme.SettingsPage)] in
  let importModule := JsFunction 21 [] (ReturnsPromise (Fulfilled module)) in
  (∃ r ld,
     createComponentRoute importModule = Normal r ∧
     Route.loadComponent r = Some ld ∧
     call_loader ld = Normal (Fulfilled Readme.SettingsPage)) ∧
  (∃ r ld,
     createComponentRoute Readme.loadSettings = Normal r ∧
     Route.loadComponent r = Some ld ∧
     call_loader ld = Normal (Fulfilled Readme.SettingsPage)).
Proof.
  intros module importModule. split.
  - destruct (loadComponent_unwraps_default importModule module eq_refl eq_refl)
      as (r & ld & Hr & Hld & _ & Hdefault & _).
    exists r, ld. split; [exact Hr|]. split; [exact Hld|].
    apply Hdefault. eexists. split; reflexivity.
  - destruct (loadComponent_unwraps_default Readme.loadSettings Readme.SettingsPage
                eq_refl eq_refl)
      as (r & ld & Hr & Hld & _ & _ & Hbare).
    exists r, ld. split; [exact Hr|]. split; [exact Hld|].
    apply Hbare. eexists. split; reflexivity.
Defined.

(** ** Route generation *)

Lemma array_map_lift {A B} (f : A → Completion B) (g : A → B) (a : list A) (σ : State) :
  (∀ x, f x = Normal (g x)) →
  array_map (λ x, lift (f x)) a σ = (Normal (g <$> a), σ).
Proof.
  intros Hf. induction a as [|x a IH]; [done|].
  simpl. unfold bind at 1, lift at 1. rewrite Hf.
  unfold bind at 1. by rewrite IH.
Qed.

Lemma generateChildrenRoutes_eq (σ : State) (l : loc) (D : list Tab) :
  heap σ !! l = Some D →
  generateChildrenRoutes l σ = (Normal (child_entry <$> D), σ).
Proof.
  intros Hl. unfold generateChildrenRoutes, bind, read_array. rewrite Hl.
  apply array_map_lift, childRoute_eq.
Qed.

Lemma generateRoutes_nonempty (σ : State) (l : loc) (d : Tab) (D : list Tab) :
  heap σ !! l = Some (d :: D) →
  generateRoutes l σ =
    (Normal [ parent_route l ((child_entry <$> d :: D) ++
                              [redirect (strip_tabs (Tab.urlPath d))]);
              redirect (Tab.urlPath d) ], σ).
Proof.
  intros Hl. unfold generateRoutes. unfold bind at 1.
  rewrite (generateChildrenRoutes_eq σ l (d :: D) Hl).
  unfold array_index, bind, read_array, lift, ret. rewrite Hl. simpl.
  by rewrite Hl.
Qed.

Lemma generateRoutes_empty (σ : State) (l : loc) :
  heap σ !! l = Some [] →
  generateRoutes l σ =
    (Throw (TypeError "Cannot read properties of undefined (reading 'urlPath')"), σ).
Proof.
  intros Hl. unfold generateRoutes. unfold bind at 1.
  rewrite (generateChildrenRoutes_eq σ l [] Hl).
  unfold array_index, bind, read_array, lift, ret. by rewrite Hl.
Qed.

(** Whatever the array holds, and also when the call throws, the state is
    left as it was. *)
Lemma generateRoutes_state (σ : State) (l : loc) : (generateRoutes l σ).2 = σ.
Proof.
  destruct (heap σ !! l) as [[|d D]|] eqn:Hl.
  - by rewrite generateRoutes_empty.
  - by rewrite (generateRoutes_nonempty σ l d D).
  - unfold generateRoutes, generateChildrenRoutes, bind, read_array. by rewrite Hl.
Qed.

(** C1: for a non-empty descriptor array, the parent route ['tabs'] has,
    before its closing redirect, exactly one child per descriptor, in the
    order of the array; the child at position [i] has as path the
    [urlPath] of descriptor [i] through the stripping step (for a path
    that starts with ['/tabs/'], what follows that prefix) and the binding
    of that descriptor's component. Nothing is asked of the names or paths:
    equal ones give equal children, each at its own position. *)
Theorem generateRoutes_children (σ : State) (l : loc) (D : list Tab) :
  heap σ !! l = Some D → D ≠ [] →
  ∃ parent root kids closing,
    (generateRoutes l σ).1 = Normal [parent; root] ∧
    Route.path parent = Some "tabs" ∧
    Route.children parent = Some (kids ++ [closing]) ∧
    length kids = length D ∧
    (∀ i d, D !! i = Some d →
       ∃ r b, kids !! i = Some r ∧
         Route.path r = Some (strip_tabs (Tab.urlPath d)) ∧
         (∀ rest, Tab.urlPath d = "/tabs/" +:+ rest → Route.path r = Some rest) ∧
         createComponentRoute (Tab.component d) = Normal b ∧
         Route.component r = Route.component b ∧
         Route.loadComponent r = Route.loadComponent b) ∧
    (∀ i r, kids !! i = Some r → ∃ d, D !! i = Some d).
Proof.
  intros Hl Hne. destruct D as [|d0 D]; [done|].
  rewrite (generateRoutes_nonempty σ l d0 D Hl).
  eexists _, _, (child_entry <$> d0 :: D), _.
  split; [done|]. split; [done|]. split; [done|].
  split; [by rewrite length_fmap|]. split.
  - intros i d Hd. exists (child_entry d), (view_binding (Tab.component d)).
    split; [by rewrite list_lookup_fmap, Hd|].
    split; [done|]. split.
    + intros rest Hrest. simpl. by rewrite Hrest, strip_tabs_prefix.
    + by rewrite createComponentRoute_eq.
  - intros i r Hr. rewrite list_lookup_fmap in Hr.
    destruct ((d0 :: D) !! i) as [d|]; [by exists d|done].
Qed.

Lemma generateRoutes_children_witness :
  ∃ parent root kids closing,
    (generateRoutes 5 Readme.store).1 = Normal [parent; root] ∧
    Route.path parent = Some "tabs" ∧
    Route.children parent = Some (kids ++ [closing]) ∧
    length kids = length Readme.APP_TABS ∧
    (∀ i d, Readme.APP_TABS !! i = Some d →
       ∃ r b, kids !! i = Some r ∧
         Route.path r = Some (strip_tabs (Tab.urlPath d)) ∧
         (∀ rest, Tab.urlPath d = "/tabs/" +:+ rest → Route.path r = Some rest) ∧
         createComponentRoute (Tab.component d) = Normal b ∧
         Route.component r = Route.component b ∧
         Route.loadComponent r = Route.loadComponent b) ∧
    (∀ i r, kids !! i = Some r → ∃ d, Readme.APP_TABS !! i = Some d).
Proof.
  apply (generateRoutes_children Readme.store 5 Readme.APP_TABS);
    [reflexivity|discriminate].
Defined.

(** Two descriptors with the same name and path give two children. *)
Example generateRoutes_keeps_duplicates :
  let d := Tab.mk "home" "Home" "home-outline" "/tabs/home" Readme.HomePage in
  let σ := mkState {[ 1%positive := [d; d] ]} (TabsRef 1) [] [] in
  ∃ parent root closing,
    generateRoutes 1 σ = (Normal [parent; root], σ) ∧
    Route.children parent = Some ([child_entry d; child_entry d] ++ [closing]).
Proof. intros d σ. by eexists _, _, _. Qed.

(** C2: for a non-empty descriptor array whose first element is [d], the
    last child of the parent route is the redirect with path [''],
    [pathMatch] ['full'] and target the stripped [urlPath] of [d] (what
    follows ['/tabs/'] when the path starts with it), and the second
    root-level entry is the redirect with path [''], [pathMatch] ['full']
    and target the [urlPath] of [d] as it is. *)
Theorem generateRoutes_redirects (σ : State) (l : loc) (D : list Tab) (d : Tab) :
  heap σ !! l = Some D → head D = Some d →
  ∃ parent root kids,
    (generateRoutes l σ).1 = Normal [parent; root] ∧
    Route.children parent = Some kids ∧
    length kids = S (length D) ∧
    last kids = Some (Route.mk (Some "") None None None None
                               (Some (strip_tabs (Tab.urlPath d))) (Some "full")) ∧
    (∀ rest, Tab.urlPath d = "/tabs/" +:+ rest →
       last kids = Some (Route.mk (Some "") None None None None
                                  (Some rest) (Some "full"))) ∧
    root = Route.mk (Some "") None None None None
                    (Some (Tab.urlPath d)) (Some "full").
Proof.
  intros Hl Hd. destruct D as [|d0 D]; simplify_eq/=.
  rewrite (generateRoutes_nonempty σ l d D Hl).
  eexists _, _, _. split; [done|]. split; [done|].
  split; [|split; [|split]].
  - rewrite length_app, length_fmap. simpl. lia.
  - by rewrite last_snoc.
  - intros rest Hrest. by rewrite last_snoc, Hrest, strip_tabs_prefix.
  - done.
Qed.

Lemma generateRoutes_redirects_witness :
  ∃ parent root kids,
    (generateRoutes 5 Readme.store).1 = Normal [parent; root] ∧
    Route.children parent = Some kids ∧
    length kids = S (length Readme.APP_TABS) ∧
    last kids = Some (Route.mk (Some "") None None None None
                               (Some (strip_tabs "/tabs/home")) (Some "full")) ∧
    (∀ rest, "/tabs/home" = "/tabs/" +:+ rest →
       last kids = Some (Route.mk (Some "") None None None None
                                  (Some rest) (Some "full"))) ∧
    root = Route.mk (Some "") None None None None
                    (Some "/tabs/home") (Some "full").
Proof.
  apply (generateRoutes_redirects Readme.store 5 Readme.APP_TABS
           (Tab.mk "home" "Home" "home-outline" "/tabs/home" Readme.HomePage));
    reflexivity.
Defined.

(** ** Purity of route generation *)

Lemma list_sim_refl_on {A} (R : A → A → Prop) (l : list A) :
  (∀ x, x ∈ l → R x x) → list_sim R l l.
Proof.
  induction l as [|x l IH]; intros HR; simpl; [done|].
  split; [apply HR; left|]. apply IH. intros y Hy. apply HR. by right.
Qed.

Lemma route_sim_leaf (h1 h2 : gmap loc (list Tab)) (r : Route) :
  Route.data r = None → Route.children r = None → route_sim h1 h2 r r.
Proof. destruct r; simpl; intros -> ->. done. Qed.

Lemma parent_route_sim (h1 h2 : gmap loc (list Tab)) (l1 l2 : loc) (kids : Routes) :
  is_Some (h1 !! l1) → h1 !! l1 = h2 !! l2 →
  (∀ r, r ∈ kids → route_sim h1 h2 r r) →
  route_sim h1 h2 (parent_route l1 kids) (parent_route l2 kids).
Proof.
  intros Hsome Heq Hkids. simpl. split; [done|]. split; [done|]. split; [done|].
  split; [|split; [by apply list_sim_refl_on|done]].
  intros k. destruct (decide (k = "tabs")) as [->|Hk].
  - rewrite !lookup_singleton_eq. by constructor.
  - rewrite !lookup_singleton_ne by done. constructor.
Qed.

(** Equal arrays, at any two addresses of any two states, give
    structurally equal route tables. *)
Lemma generateRoutes_sim (σ1 σ2 : State) (l1 l2 : loc) (d : Tab) (D : list Tab) :
  heap σ1 !! l1 = Some (d :: D) → heap σ2 !! l2 = Some (d :: D) →
  ∃ r1 r2,
    generateRoutes l1 σ1 = (Normal r1, σ1) ∧
    generateRoutes l2 σ2 = (Normal r2, σ2) ∧
    list_sim (route_sim (heap σ1) (heap σ2)) r1 r2.
Proof.
  intros H1 H2.
  rewrite (generateRoutes_nonempty σ1 l1 d D H1), (generateRoutes_nonempty σ2 l2 d D H2).
  eexists _, _. split; [done|]. split; [done|].
  split; [|split; [by apply route_sim_leaf|done]].
  apply parent_route_sim; [by rewrite H1|by rewrite H1, H2|].
  intros r [Hr|Hr]%elem_of_app.
  - apply list_elem_of_fmap in Hr as (t & -> & _). by apply route_sim_leaf.
  - apply list_elem_of_singleton in Hr as ->. by apply route_sim_leaf.
Qed.

(** C6: two calls in a row, on two arrays with the same elements (at the
    same address or not), return structurally equal route tables and leave
    the whole state as it was: arrays, component field, console and icon
    registry; the parent route's [data.tabs] is the address that was
    passed, not a copy; and a call never changes the state, whatever its
    argument. *)
Theorem generateRoutes_pure (σ : State) (l1 l2 : loc) (D : list Tab) :
  D ≠ [] → heap σ !! l1 = Some D → heap σ !! l2 = Some D →
  (∃ r1 r2 parent rest m,
     (let! a := generateRoutes l1 in
      let! b := generateRoutes l2 in
      ret (a, b)) σ = (Normal (r1, r2), σ) ∧
     list_sim (route_sim (heap σ) (heap σ)) r1 r2 ∧
     r1 = parent :: rest ∧
     Route.data parent = Some m ∧
     m !! "tabs" = Some (TabsRef l1)) ∧
  (∀ σ' l', (generateRoutes l' σ').2 = σ').
Proof.
  intros Hne H1 H2. split; [|apply generateRoutes_state].
  destruct D as [|d D]; [done|].
  destruct (generateRoutes_sim σ σ l1 l2 d D H1 H2) as (r1 & r2 & Hr1 & Hr2 & Hsim).
  exists r1, r2.
  rewrite (generateRoutes_nonempty σ l1 d D H1) in Hr1.
  injection Hr1 as <-.
  eexists _, _, _. split; [|split; [done|split; [done|split; [done|]]]].
  - unfold bind. rewrite (generateRoutes_nonempty σ l1 d D H1), Hr2. done.
  - apply lookup_singleton_eq.
Qed.

Lemma generateRoutes_pure_witness :
  (∃ r1 r2 parent rest m,
     (let! a := generateRoutes 5 in
      let! b := generateRoutes 6 in
      ret (a, b)) Readme.store = (Normal (r1, r2), Readme.store) ∧
     list_sim (route_sim (heap Readme.store) (heap Readme.store)) r1 r2 ∧
     r1 = parent :: rest ∧
     Route.data parent = Some m ∧
     m !! "tabs" = Some (TabsRef 5)) ∧
  (∀ σ' l', (generateRoutes l' σ').2 = σ').
Proof.
  apply (generateRoutes_pure Readme.store 5 6 Readme.APP_TABS);
    [discriminate|reflexivity|reflexivity].
Defined.

(** C7: on a non-empty array the call returns a route table; on the empty
    array reading [urlPath] of the absent element zero throws a TypeError;
    and element zero is the only element whose absence makes the call
    throw: it returns exactly when the array has an element zero. *)
Theorem generateRoutes_total_on_nonempty (σ : State) (l : loc) (D : list Tab) :
  heap σ !! l = Some D →
  (D ≠ [] → ∃ routes, generateRoutes l σ = (Normal routes, σ)) ∧
  (D = [] → ∃ msg, generateRoutes l σ = (Throw (TypeError msg), σ)) ∧
  ((∃ routes, (generateRoutes l σ).1 = Normal routes) ↔ is_Some (D !! 0%nat)).
Proof.
  intros Hl. destruct D as [|d D].
  - rewrite (generateRoutes_empty σ l Hl). split; [done|]. split; [by eexists|].
    split; [by intros [? ?]|by intros [? ?]].
  - rewrite (generateRoutes_nonempty σ l d D Hl). split; [by eexists|].
    split; [done|]. split; [by eexists|by eexists].
Qed.

Lemma generateRoutes_total_on_nonempty_witness :
  (Readme.APP_TABS ≠ [] →
     ∃ routes, generateRoutes 5 Readme.store = (Normal routes, Readme.store)) ∧
  (Readme.APP_TABS = [] →
     ∃ msg, generateRoutes 5 Readme.store = (Throw (TypeError msg), Readme.store)) ∧
  ((∃ routes, (generateRoutes 5 Readme.store).1 = Normal routes) ↔
     is_Some (Readme.APP_TABS !! 0%nat)).
Proof.
  apply (generateRoutes_total_on_nonempty Readme.store 5 Readme.APP_TABS).
  reflexivity.
Defined.

(** On the empty array the call throws after the children were built. *)
Example generateRoutes_empty_throws :
  let σ := mkState {[ 1%positive := [] ]} (TabsRef 1) [] [] in
  generateRoutes 1 σ =
    (Throw (TypeError "Cannot read properties of undefined (reading 'urlPath')"), σ).
Proof. reflexivity. Qed.

(** ** The tab-bar component *)

Section TabBarProperties.
Context (camelCase : string → string) (allIcons : gmap string JsValue).

Local Abbreviation is_resolved := (resolved camelCase allIcons).
Local Abbreviation icon_map := (icons_of camelCase allIcons).
Local Abbreviation icon_warnings := (warnings_of camelCase allIcons).
Local Abbreviation asset_of := (icon_lookup allIcons).

Lemma array_reduce_collectIcon (D : list Tab) (acc : gmap string JsValue) (σ : State) :
  array_reduce (collectIcon camelCase allIcons) D acc σ =
    (Normal (icon_map D acc),
     mkState (heap σ) (this_tabs σ) (console σ ++ icon_warnings D) (registry σ)).
Proof.
  revert acc σ. induction D as [|d D IH]; intros acc σ.
  - destruct σ. simpl. unfold ret. by rewrite app_nil_r.
  - simpl. unfold bind at 1, collectIcon.
    fold (is_resolved d).
    destruct (is_resolved d) eqn:Hres.
    + unfold ret at 1. rewrite IH. unfold warnings_of.
      by rewrite filter_cons_False by congruence.
    + unfold bind at 1, console_warn, ret at 1. rewrite IH. unfold warnings_of.
      rewrite filter_cons_True by done. simpl.
      by rewrite <- app_assoc.
Qed.

Lemma initializeRequiredIcons_eq (σ : State) (l : loc) (D : list Tab) :
  this_tabs σ = TabsRef l → heap σ !! l = Some D →
  initializeRequiredIcons camelCase allIcons σ =
    (Normal (), after_icons σ (icon_warnings D) (icon_map D ∅)).
Proof.
  intros Hthis Hl. unfold initializeRequiredIcons, bind, get_this_tabs.
  rewrite Hthis. unfold read_array. rewrite Hl.
  by rewrite array_reduce_collectIcon.
Qed.

(** The icon set-up leaves the [tabs] field as it is, also when it
    throws. *)
Lemma initializeRequiredIcons_this_tabs (σ : State) :
  this_tabs (initializeRequiredIcons camelCase allIcons σ).2 = this_tabs σ.
Proof.
  destruct (this_tabs σ) as [l|v] eqn:Hthis.
  - destruct (heap σ !! l) as [D|] eqn:Hl.
    + by rewrite (initializeRequiredIcons_eq σ l D).
    + unfold initializeRequiredIcons, bind, get_this_tabs, read_array.
      by rewrite Hthis, Hl.
  - unfold initializeRequiredIcons, bind, get_this_tabs. by rewrite Hthis.
Qed.

Lemma resolved_lookup (tab : Tab) :
  is_resolved tab = true →
  allIcons !! camelCase (Tab.iconName tab) =
    Some (asset_of (camelCase (Tab.iconName tab))).
Proof.
  unfold resolved, icon_lookup.
  by destruct (allIcons !! camelCase (Tab.iconName tab)).
Qed.

(** Every entry of the mapping was there before or comes from a resolved
    descriptor, under that descriptor's own [iconName]. *)
Lemma icons_of_lookup_Some (D : list Tab) (acc : gmap string JsValue) k v :
  icon_map D acc !! k = Some v →
  acc !! k = Some v ∨
  ∃ d, d ∈ D ∧ Tab.iconName d = k ∧ is_resolved d = true ∧
       v = asset_of (camelCase k).
Proof.
  revert acc. induction D as [|d D IH]; intros acc; simpl; [by left|].
  intros [Hacc|(d' & Hd' & Hk & Hres & Hv)]%IH.
  - destruct (is_resolved d) eqn:Hres; [|by left].
    unfold set_prop in Hacc. case_decide; [by left|].
    apply lookup_insert_Some in Hacc as [[<- <-]|[_ Hacc]]; [|by left].
    right. exists d. split; [left|done].
  - right. exists d'. split; [by right|done].
Qed.

(** A resolved descriptor whose [iconName] is not the prototype accessor
    has its entry. *)
Lemma icons_of_resolved (D : list Tab) (acc : gmap string JsValue) d :
  d ∈ D → is_resolved d = true → Tab.iconName d ≠ "__proto__" →
  icon_map D acc !! Tab.iconName d = Some (asset_of (camelCase (Tab.iconName d))).
Proof.
  intros Hd Hres Hproto. revert acc.
  assert (∀ D' acc',
    acc' !! Tab.iconName d = Some (asset_of (camelCase (Tab.iconName d))) →
    icon_map D' acc' !! Tab.iconName d =
      Some (asset_of (camelCase (Tab.iconName d)))) as Hkeep.
  { induction D' as [|d' D' IH]; intros acc' Hacc; simpl; [done|].
    apply IH. destruct (is_resolved d') eqn:Hres'; [|done].
    unfold set_prop. case_decide; [done|].
    destruct (decide (Tab.iconName d' = Tab.iconName d)) as [Heq|Hne].
    - rewrite Heq. by rewrite lookup_insert_eq.
    - by rewrite lookup_insert_ne. }
  induction D as [|d0 D IH]; intros acc; [by apply elem_of_nil in Hd|].
  apply elem_of_cons in Hd as [<-|Hd]; simpl.
  - rewrite Hres. apply Hkeep. unfold set_prop.
    rewrite decide_False by done. by rewrite lookup_insert_eq.
  - by apply IH.
Qed.
(** C8: [ngOnInit] sets the [tabs] field to the value under the key
    ['tabs'] of the route data when that value is truthy, whatever the icon
    set-up then does; when the key is absent or its value is falsy, the
    field is set to a new empty array and the call completes without an
    error, printing no warning and registering an empty mapping; and when
    the value is a descriptor array the call completes without an error. *)
Theorem ngOnInit_reads_tabs (data : gmap string RouteDatum) (σ : State) :
  (∀ v, data !! "tabs" = Some v → datum_truthy v = true →
     this_tabs (ngOnInit camelCase allIcons data σ).2 = v) ∧
  (data !! "tabs" = None ∨ (∃ v, data !! "tabs" = Some v ∧ datum_truthy v = false) →
     ∃ l, heap σ !! l = None ∧
       ngOnInit camelCase allIcons data σ =
         (Normal (),
          mkState (<[l := []]> (heap σ)) (TabsRef l) (console σ) (registry σ ++ [∅]))) ∧
  (∀ l D, data !! "tabs" = Some (TabsRef l) → heap σ !! l = Some D →
     ∃ warnings icons,
       ngOnInit camelCase allIcons data σ =
         (Normal (),
          after_icons (mkState (heap σ) (TabsRef l) (console σ) (registry σ))
                      warnings icons)).
Proof.
  split; [|split].
  - intros v Hv Htruthy. unfold ngOnInit. rewrite Hv. simpl. rewrite Htruthy.
    unfold bind at 1, ret at 1. unfold bind at 1, set_this_tabs at 1.
    by rewrite initializeRequiredIcons_this_tabs.
  - intros Habsent.
    assert (datum_truthy (default (Other JsUndefined) (data !! "tabs")) = false)
      as Hfalsy.
    { destruct Habsent as [->|(v & -> & Hv)]; done. }
    exists (fresh (dom (heap σ))). split.
    { apply not_elem_of_dom, is_fresh. }
    unfold ngOnInit. rewrite Hfalsy.
    unfold bind at 1. unfold bind at 1. unfold alloc_array at 1, ret at 1.
    unfold bind at 1, set_this_tabs at 1.
    erewrite initializeRequiredIcons_eq; [|done|simpl; apply lookup_insert_eq].
    unfold after_icons. simpl. by rewrite app_nil_r.
  - intros l D Hv Hl. unfold ngOnInit. rewrite Hv. simpl.
    unfold bind at 1, ret at 1. unfold bind at 1, set_this_tabs at 1.
    erewrite initializeRequiredIcons_eq; [|done|by simpl]. by eexists _, _.
Qed.

(** C10, amended: every entry of the mapping given to [addIcons] is keyed
    by the [iconName] of a descriptor of the list, as the descriptor
    spells it, and its value is the catalog asset under the camelCase
    conversion of that name; every descriptor whose converted name has a
    truthy asset, and whose [iconName] is not [__proto__], has such an
    entry; a converted name is a key only when it is itself the [iconName]
    of some descriptor of the list, so never when no descriptor is spelled
    that way, and for a single descriptor only when the conversion leaves
    its name unchanged. *)
Theorem registered_icons_keyed_by_iconName (σ : State) (l : loc) (D : list Tab) :
  this_tabs σ = TabsRef l → heap σ !! l = Some D →
  ∃ warnings icons,
    initializeRequiredIcons camelCase allIcons σ =
      (Normal (), after_icons σ warnings icons) ∧
    (∀ d asset, d ∈ D →
       allIcons !! camelCase (Tab.iconName d) = Some asset →
       truthy asset = true → Tab.iconName d ≠ "__proto__" →
       icons !! Tab.iconName d = Some asset) ∧
    (∀ k v, icons !! k = Some v →
       ∃ d, d ∈ D ∧ Tab.iconName d = k ∧
            allIcons !! camelCase (Tab.iconName d) = Some v) ∧
    (∀ d, d ∈ D → is_Some (icons !! camelCase (Tab.iconName d)) →
       ∃ d', d' ∈ D ∧ Tab.iconName d' = camelCase (Tab.iconName d)) ∧
    (∀ d, d ∈ D →
       (∀ d', d' ∈ D → Tab.iconName d' ≠ camelCase (Tab.iconName d)) →
       icons !! camelCase (Tab.iconName d) = None) ∧
    (∀ d, D = [d] → is_Some (icons !! camelCase (Tab.iconName d)) →
       camelCase (Tab.iconName d) = Tab.iconName d).
Proof.
  intros Hthis Hl. exists (icon_warnings D), (icon_map D ∅).
  split; [by apply (initializeRequiredIcons_eq σ l D)|].
  assert (∀ k v, icon_map D ∅ !! k = Some v →
            ∃ d, d ∈ D ∧ Tab.iconName d = k ∧
                 allIcons !! camelCase (Tab.iconName d) = Some v) as Hentry.
  { intros k v [Hempty|(d & Hd & Hk & Hres & ->)]%icons_of_lookup_Some.
    - by rewrite lookup_empty in Hempty.
    - exists d. split; [done|]. split; [done|].
      rewrite <- Hk. by apply resolved_lookup. }
  split; [|split; [done|split; [|split]]].
  - intros d asset Hd Hasset Htruthy Hproto.
    rewrite icons_of_resolved; [|done| |done].
    + unfold icon_lookup. by rewrite Hasset.
    + unfold resolved, icon_lookup. by rewrite Hasset.
  - intros d Hd [v Hv]. destruct (Hentry _ _ Hv) as (d' & Hd' & Hk & _). eauto.
  - intros d Hd Hnone.
    destruct (icon_map D ∅ !! camelCase (Tab.iconName d)) as [v|] eqn:Hv; [|done].
    destruct (Hentry _ _ Hv) as (d' & Hd' & Hk & _). by destruct (Hnone d' Hd').
  - intros d -> [v Hv]. destruct (Hentry _ _ Hv) as (d' & Hd' & Hk & _).
    apply list_elem_of_singleton in Hd' as ->. done.
Qed.

Section Catalog.
(** What is known of the two packages: every asset of the catalog is a
    non-empty string, hence truthy, and no icon is exported under the
    conversion of [__proto__]. *)
Hypothesis catalog_truthy : ∀ k v, allIcons !! k = Some v → truthy v = true.
Hypothesis proto_unresolved : allIcons !! camelCase "__proto__" = None.

Lemma resolved_true_iff (d : Tab) :
  is_resolved d = true ↔ is_Some (allIcons !! camelCase (Tab.iconName d)).
Proof.
  split.
  - intros ->%resolved_lookup. by eexists.
  - intros [v Hv]. unfold resolved, icon_lookup. rewrite Hv. simpl. eauto.
Qed.

Lemma resolved_false_iff (d : Tab) :
  is_resolved d = false ↔ allIcons !! camelCase (Tab.iconName d) = None.
Proof.
  rewrite <- not_true_iff_false, resolved_true_iff.
  by rewrite eq_None_not_Some.
Qed.

(** C9: for a descriptor array [D] in the [tabs] field, the icon set-up
    completes without an error; it prints one warning for each descriptor
    whose converted [iconName] has no entry in the catalog, in the order
    of the array, and such a descriptor has no entry in the mapping given
    to [addIcons]; every descriptor whose converted name has an entry has
    one entry in the mapping, under its [iconName], holding that asset;
    and the mapping has no other key. *)
Theorem initializeRequiredIcons_soft_fail (σ : State) (l : loc) (D : list Tab) :
  this_tabs σ = TabsRef l → heap σ !! l = Some D →
  ∃ warnings icons,
    initializeRequiredIcons camelCase allIcons σ =
      (Normal (), after_icons σ warnings icons) ∧
    warnings =
      ((λ d, "Icon not found: " +:+ Tab.iconName d) <$>
         filter (λ d, allIcons !! camelCase (Tab.iconName d) = None) D) ∧
    (∀ d, d ∈ D → allIcons !! camelCase (Tab.iconName d) = None →
       icons !! Tab.iconName d = None) ∧
    (∀ d asset, d ∈ D → allIcons !! camelCase (Tab.iconName d) = Some asset →
       icons !! Tab.iconName d = Some asset) ∧
    dom icons =
      list_to_set (Tab.iconName <$>
        filter (λ d, is_Some (allIcons !! camelCase (Tab.iconName d))) D).
Proof.
  intros Hthis Hl. exists (icon_warnings D), (icon_map D ∅).
  split; [by apply (initializeRequiredIcons_eq σ l D)|].
  assert (∀ d asset, d ∈ D →
            allIcons !! camelCase (Tab.iconName d) = Some asset →
            icon_map D ∅ !! Tab.iconName d = Some asset) as Hfound.
  { intros d asset Hd Hasset.
    rewrite icons_of_resolved; [|done| |].
    - unfold icon_lookup. by rewrite Hasset.
    - apply resolved_true_iff. by eexists.
    - intros Hproto. rewrite Hproto in Hasset. congruence. }
  split; [|split; [|split]].
  - unfold warnings_of. f_equal. apply list_filter_iff.
    intros d. apply resolved_false_iff.
  - intros d Hd Hnone.
    destruct (icon_map D ∅ !! Tab.iconName d) as [v|] eqn:Hv; [|done].
    apply icons_of_lookup_Some in Hv as [Hempty|(d' & _ & Hk & Hres & _)].
    + by rewrite lookup_empty in Hempty.
    + apply resolved_lookup in Hres. rewrite Hk in Hres. congruence.
  - done.
  - apply set_eq. intros k.
    rewrite elem_of_dom, elem_of_list_to_set, list_elem_of_fmap. split.
    + intros [v [Hempty|(d & Hd & Hk & Hres & _)]%icons_of_lookup_Some].
      * by rewrite lookup_empty in Hempty.
      * exists d. split; [done|]. apply list_elem_of_filter.
        split; [by apply resolved_true_iff|done].
    + intros (d & -> & [[asset Hasset] Hd]%list_elem_of_filter).
      exists asset. by apply Hfound.
Qed.
End Catalog.
End TabBarProperties.

(** ** Concrete instances *)

Lemma ngOnInit_reads_tabs_witness :
  this_tabs (ngOnInit Readme.camelCase Readme.allIcons
               {[ "tabs" := TabsRef 5 ]} Readme.store).2 = TabsRef 5 ∧
  ∃ l, heap Readme.store !! l = None ∧
    ngOnInit Readme.camelCase Readme.allIcons ∅ Readme.store =
      (Normal (),
       mkState (<[l := []]> (heap Readme.store)) (TabsRef l)
               (console Readme.store) (registry Readme.store ++ [∅])).
Proof.
  split.
  - apply (proj1 (ngOnInit_reads_tabs Readme.camelCase Readme.allIcons
                    {[ "tabs" := TabsRef 5 ]} Readme.store));
      reflexivity.
  - apply (proj1 (proj2 (ngOnInit_reads_tabs Readme.camelCase Readme.allIcons
                           ∅ Readme.store))).
    left. reflexivity.
Defined.

Lemma registered_icons_keyed_by_iconName_witness :
  ∃ warnings icons,
    initializeRequiredIcons Readme.camelCase Readme.allIcons Readme.store =
      (Normal (), after_icons Readme.store warnings icons) ∧
    (∀ d asset, d ∈ Readme.APP_TABS →
       Readme.allIcons !! Readme.camelCase (Tab.iconName d) = Some asset →
       truthy asset = true → Tab.iconName d ≠ "__proto__" →
       icons !! Tab.iconName d = Some asset) ∧
    (∀ k v, icons !! k = Some v →
       ∃ d, d ∈ Readme.APP_TABS ∧ Tab.iconName d = k ∧
            Readme.allIcons !! Readme.camelCase (Tab.iconName d) = Some v) ∧
    (∀ d, d ∈ Readme.APP_TABS →
       is_Some (icons !! Readme.camelCase (Tab.iconName d)) →
       ∃ d', d' ∈ Readme.APP_TABS ∧
             Tab.iconName d' = Readme.camelCase (Tab.iconName d)) ∧
    (∀ d, d ∈ Readme.APP_TABS →
       (∀ d', d' ∈ Readme.APP_TABS →
          Tab.iconName d' ≠ Readme.camelCase (Tab.iconName d)) →
       icons !! Readme.camelCase (Tab.iconName d) = None) ∧
    (∀ d, Readme.APP_TABS = [d] →
       is_Some (icons !! Readme.camelCase (Tab.iconName d)) →
       Readme.camelCase (Tab.iconName d) = Tab.iconName d).
Proof.
  apply (registered_icons_keyed_by_iconName Readme.camelCase Readme.allIcons
           Readme.store 5 Readme.APP_TABS); reflexivity.
Defined.

(** C10, as the claim states it, fails on a list of two descriptors that
    name the same icon in two spellings, ['home-outline'] and
    ['homeOutline']: the converted name of the first, ['homeOutline'], is
    a key of the mapping (the second descriptor's entry) although it
    differs from the first descriptor's own name. *)
Lemma registered_icons_converted_key_of_other :
  let a := Tab.mk "home" "Home" "home-outline" "/tabs/home" Readme.HomePage in
  let b := Tab.mk "start" "Start" "homeOutline" "/tabs/start" Readme.HomePage in
  let σ := mkState {[ 9%positive := [a; b] ]} (TabsRef 9) [] [] in
  ∃ icons,
    initializeRequiredIcons Readme.camelCase Readme.allIcons σ =
      (Normal (), after_icons σ [] icons) ∧
    a ∈ [a; b] ∧
    is_Some (icons !! Readme.camelCase (Tab.iconName a)) ∧
    Readme.camelCase (Tab.iconName a) ≠ Tab.iconName a ∧
    ¬ (∀ d, d ∈ [a; b] →
         is_Some (icons !! Readme.camelCase (Tab.iconName d)) →
         Readme.camelCase (Tab.iconName d) = Tab.iconName d).
Proof.
  intros a b σ. eexists. split; [reflexivity|].
  assert (is_Some (icons_of Readme.camelCase Readme.allIcons [a; b] ∅
                     !! Readme.camelCase (Tab.iconName a))) as Hkey.
  { apply (bool_decide_unpack _). by vm_compute. }
  split; [left|]. split; [exact Hkey|]. split; [discriminate|].
  intros Hclaim. by specialize (Hclaim a ltac:(left) Hkey).
Qed.

Lemma initializeRequiredIcons_soft_fail_witness :
  ∃ warnings icons,
    initializeRequiredIcons Readme.camelCase Readme.allIcons Readme.store =
      (Normal (), after_icons Readme.store warnings icons) ∧
    warnings =
      ((λ d, "Icon not found: " +:+ Tab.iconName d) <$>
         filter (λ d, Readme.allIcons !! Readme.camelCase (Tab.iconName d) = None)
                Readme.APP_TABS) ∧
    (∀ d, d ∈ Readme.APP_TABS →
       Readme.allIcons !! Readme.camelCase (Tab.iconName d) = None →
       icons !! Tab.iconName d = None) ∧
    (∀ d asset, d ∈ Readme.APP_TABS →
       Readme.allIcons !! Readme.camelCase (Tab.iconName d) = Some asset →
       icons !! Tab.iconName d = Some asset) ∧
    dom icons =
      list_to_set (Tab.iconName <$>
        filter (λ d, is_Some (Readme.allIcons !! Readme.camelCase (Tab.iconName d)))
               Readme.APP_TABS).
Proof.
  apply (initializeRequiredIcons_soft_fail Readme.camelCase Readme.allIcons)
    with (l := 5%positive).
  - intros k v Hv. unfold Readme.allIcons in Hv.
    apply lookup_singleton_Some in Hv as [_ <-]. reflexivity.
  - reflexivity.
  - reflexivity.
  - reflexivity.
Defined.

(** The README configuration: the home icon is registered under
    ['home-outline'] with the asset found under ['homeOutline'], the
    settings icon is missing and reported, and ['homeOutline'] is not a
    key of the mapping. *)
Example ngOnInit_readme :
  ∃ icons,
    ngOnInit Readme.camelCase Readme.allIcons {[ "tabs" := TabsRef 5 ]} Readme.store =
      (Normal (),
       after_icons Readme.store ["Icon not found: settings-outline"] icons) ∧
    icons !! "home-outline" = Readme.allIcons !! "homeOutline" ∧
    icons !! "homeOutline" = None ∧
    icons !! "settings-outline" = None.
Proof. eexists. split; [reflexivity|]. by vm_compute. Qed.

(** Were an icon exported under the conversion of [__proto__], a descriptor
    of that name would be resolved without getting an entry. *)
Example set_prop_proto_accessor :
  let catalog : gmap string JsValue := {[ "proto" := JsString "data:image/svg+xml" ]} in
  let d := Tab.mk "p" "P" "__proto__" "/tabs/p" Readme.HomePage in
  resolved Readme.camelCase catalog d = true ∧
  icons_of Readme.camelCase catalog [d] ∅ = ∅.
Proof. by vm_compute. Qed.

(** A truthy value that is not an array: the field is set to it and the
    icon set-up throws. *)
Example ngOnInit_not_an_array :
  let r := ngOnInit Readme.camelCase Readme.allIcons
             {[ "tabs" := Other (JsNumber 5) ]} Readme.store in
  r.1 = Throw (TypeError "this.tabs.reduce is not a function") ∧
  this_tabs r.2 = Other (JsNumber 5).
Proof. by vm_compute. Qed.

(** * Further properties *)

(** ** The stripping step *)

Lemma string_length_app (s1 s2 : string) :
  String.length (s1 +:+ s2) = (String.length s1 + String.length s2)%nat.
Proof. induction s1 as [|c s1 IH]; simpl; [done|]. by rewrite IH. Qed.

Lemma starts_with_drop_length (p s : string) :
  starts_with p s = true →
  (String.length (string_drop (String.length p) s) + String.length p)%nat =
    String.length s.
Proof.
  revert s. induction p as [|a p IH]; intros s Hs; simpl.
  - destruct s; simpl; lia.
  - destruct s as [|b s]; simpl in *; [done|].
    destruct (Ascii.eqb a b); [|done]. rewrite <- (IH s Hs). lia.
Qed.

Lemma starts_with_split (p s : string) :
  starts_with p s = true → s = p +:+ string_drop (String.length p) s.
Proof.
  revert s. induction p as [|a p IH]; intros s Hs; simpl.
  - by destruct s.
  - destruct s as [|b s]; simpl in *; [done|].
    destruct (Ascii.eqb_spec a b) as [->|]; [|done].
    change (String b p +:+ string_drop (String.length p) s)
      with (String b (p +:+ string_drop (String.length p) s)).
    by rewrite <- (IH s Hs).
Qed.

Lemma string_drop_empty (i : nat) : string_drop i "" = "".
Proof. by destruct i. Qed.

Lemma replace_occurrence_length (pat rep s : string) :
  (∃ i, starts_with pat (string_drop i s) = true) →
  (String.length (replace pat rep s) + String.length pat)%nat =
    (String.length s + String.length rep)%nat.
Proof.
  induction s as [|c s IH]; intros [i Hi]; rewrite replace_unfold.
  - rewrite string_drop_empty in Hi. rewrite Hi.
    rewrite string_length_app. pose proof (starts_with_drop_length pat "" Hi).
    simpl in *. lia.
  - destruct (starts_with pat (String c s)) eqn:Hhere.
    + rewrite string_length_app.
      pose proof (starts_with_drop_length pat (String c s) Hhere). lia.
    + destruct i as [|i]; [simpl in Hi; congruence|].
      simpl in Hi. simpl. rewrite <- IH by eauto. lia.
Qed.

Lemma occurrence_dec (pat s : string) :
  (∃ i, starts_with pat (string_drop i s) = true) ∨
  (∀ i, starts_with pat (string_drop i s) = false).
Proof.
  induction s as [|c s IH].
  - destruct (starts_with pat "") eqn:Hhere.
    + left. by exists O.
    + right. intros i. by rewrite string_drop_empty.
  - destruct (starts_with pat (String c s)) eqn:Hhere.
    + left. by exists O.
    + destruct IH as [[i Hi]|Hno].
      * left. by exists (S i).
      * right. intros [|i]; [done|apply Hno].
Qed.

(** X1: a path that holds ['/tabs/'] comes out exactly six characters
    shorter, a path that does not comes out unchanged; so the step changes
    a path exactly when the path holds ['/tabs/'] somewhere. *)
Theorem strip_tabs_changes_iff_occurs (urlPath : string) :
  ((∃ i, starts_with "/tabs/" (string_drop i urlPath) = true) →
     (String.length (strip_tabs urlPath) + 6)%nat = String.length urlPath) ∧
  ((∀ i, starts_with "/tabs/" (string_drop i urlPath) = false) →
     strip_tabs urlPath = urlPath) ∧
  (strip_tabs urlPath ≠ urlPath ↔
     ∃ i, starts_with "/tabs/" (string_drop i urlPath) = true).
Proof.
  assert ((∃ i, starts_with "/tabs/" (string_drop i urlPath) = true) →
          (String.length (strip_tabs urlPath) + 6)%nat = String.length urlPath)
    as Hshort.
  { intros Hocc. unfold strip_tabs.
    pose proof (replace_occurrence_length "/tabs/" "" urlPath Hocc) as Hlen.
    simpl in Hlen. lia. }
  split; [done|]. split; [apply replace_absent|]. split.
  - intros Hchanged.
    destruct (occurrence_dec "/tabs/" urlPath) as [Hocc|Hno]; [done|].
    destruct Hchanged. by apply replace_absent.
  - intros Hocc Heq. apply Hshort in Hocc. rewrite Heq in Hocc. lia.
Qed.

Lemma strip_tabs_changes_iff_occurs_witness :
  (String.length (strip_tabs "/tabs/a/tabs/b") + 6)%nat =
    String.length "/tabs/a/tabs/b" ∧
  strip_tabs "x/tabs/y" ≠ "x/tabs/y".
Proof.
  split.
  - apply (proj1 (strip_tabs_changes_iff_occurs "/tabs/a/tabs/b")).
    by exists O.
  - apply (proj2 (proj2 (strip_tabs_changes_iff_occurs "x/tabs/y"))).
    by exists 1%nat.
Defined.

(** ** The shape of the route table *)

Lemma child_entry_shape (tab : Tab) :
  is_Some (Route.path (child_entry tab)) ∧
  (is_Some (Route.component (child_entry tab)) ↔
     Route.loadComponent (child_entry tab) = None) ∧
  Route.data (child_entry tab) = None ∧
  Route.children (child_entry tab) = None ∧
  Route.redirectTo (child_entry tab) = None ∧
  Route.pathMatch (child_entry tab) = None.
Proof.
  unfold child_entry, view_binding.
  destruct (lazy_ref (Tab.component tab)); simpl.
  - split; [by eexists|]. split; [|done]. split; [by intros [? ?]|done].
  - split; [by eexists|]. split; [|done]. split; [done|by eexists].
Qed.

(** X2: each per-descriptor child of the parent route has a path and
    exactly one of [component] and [loadComponent], and no [data],
    [children], [redirectTo] or [pathMatch]. *)
Theorem generateRoutes_child_shape (σ : State) (l : loc) (D : list Tab) :
  heap σ !! l = Some D → D ≠ [] →
  ∃ parent root kids closing,
    (generateRoutes l σ).1 = Normal [parent; root] ∧
    Route.children parent = Some (kids ++ [closing]) ∧
    length kids = length D ∧
    ∀ r, r ∈ kids →
      is_Some (Route.path r) ∧
      (is_Some (Route.component r) ↔ Route.loadComponent r = None) ∧
      Route.data r = None ∧
      Route.children r = None ∧
      Route.redirectTo r = None ∧
      Route.pathMatch r = None.
Proof.
  intros Hl Hne. destruct D as [|d D]; [done|].
  rewrite (generateRoutes_nonempty σ l d D Hl).
  eexists _, _, (child_entry <$> d :: D), _.
  split; [done|]. split; [done|]. split; [by rewrite length_fmap|].
  intros r (t & -> & _)%list_elem_of_fmap. apply child_entry_shape.
Qed.

Lemma generateRoutes_child_shape_witness :
  ∃ parent root kids closing,
    (generateRoutes 5 Readme.store).1 = Normal [parent; root] ∧
    Route.children parent = Some (kids ++ [closing]) ∧
    length kids = length Readme.APP_TABS ∧
    ∀ r, r ∈ kids →
      is_Some (Route.path r) ∧
      (is_Some (Route.component r) ↔ Route.loadComponent r = None) ∧
      Route.data r = None ∧
      Route.children r = None ∧
      Route.redirectTo r = None ∧
      Route.pathMatch r = None.
Proof.
  apply (generateRoutes_child_shape Readme.store 5 Readme.APP_TABS);
    [reflexivity|discriminate].
Defined.

(** X3: the default redirect of the parent route always targets the path
    of the parent's first child, whatever the first descriptor's
    [urlPath] is. *)
Theorem generateRoutes_default_redirect_hits_first_child
    (σ : State) (l : loc) (D : list Tab) :
  heap σ !! l = Some D → D ≠ [] →
  ∃ parent root kids first closing,
    (generateRoutes l σ).1 = Normal [parent; root] ∧
    Route.children parent = Some kids ∧
    head kids = Some first ∧
    last kids = Some closing ∧
    Route.path closing = Some "" ∧
    is_Some (Route.path first) ∧
    Route.redirectTo closing = Route.path first.
Proof.
  intros Hl Hne. destruct D as [|d D]; [done|].
  rewrite (generateRoutes_nonempty σ l d D Hl).
  eexists _, _, _, (child_entry d), _.
  split; [done|]. split; [done|]. split; [done|].
  split; [apply last_snoc|]. split; [done|]. split; [by eexists|done].
Qed.

Lemma generateRoutes_default_redirect_hits_first_child_witness :
  ∃ parent root kids first closing,
    (generateRoutes 5 Readme.store).1 = Normal [parent; root] ∧
    Route.children parent = Some kids ∧
    head kids = Some first ∧
    last kids = Some closing ∧
    Route.path closing = Some "" ∧
    is_Some (Route.path first) ∧
    Route.redirectTo closing = Route.path first.
Proof.
  apply (generateRoutes_default_redirect_hits_first_child
           Readme.store 5 Readme.APP_TABS); [reflexivity|discriminate].
Defined.

(** X4: when the first descriptor's [urlPath] starts with ['/tabs/'], the
    root redirect is the parent's path followed by the default redirect's
    target, with a slash before each: the two redirects lead to the same
    child. *)
Theorem generateRoutes_root_redirect_composes
    (σ : State) (l : loc) (D : list Tab) (d : Tab) :
  heap σ !! l = Some D → head D = Some d →
  starts_with "/tabs/" (Tab.urlPath d) = true →
  ∃ parent root kids closing parentPath target,
    (generateRoutes l σ).1 = Normal [parent; root] ∧
    Route.path parent = Some parentPath ∧
    Route.children parent = Some kids ∧
    last kids = Some closing ∧
    Route.redirectTo closing = Some target ∧
    Route.redirectTo root = Some ("/" +:+ parentPath +:+ "/" +:+ target).
Proof.
  intros Hl Hd Hprefix. destruct D as [|d0 D]; [done|].
  injection Hd as ->.
  rewrite (generateRoutes_nonempty σ l d D Hl).
  eexists _, _, _, _, _, _.
  split; [done|]. split; [done|]. split; [done|].
  split; [apply last_snoc|]. split; [done|].
  pose proof (starts_with_split _ _ Hprefix) as Hsplit.
  remember (string_drop (String.length "/tabs/") (Tab.urlPath d)) as rest.
  unfold redirect, Route.redirectTo. rewrite Hsplit.
  by rewrite strip_tabs_prefix.
Qed.

Lemma generateRoutes_root_redirect_composes_witness :
  ∃ parent root kids closing parentPath target,
    (generateRoutes 5 Readme.store).1 = Normal [parent; root] ∧
    Route.path parent = Some parentPath ∧
    Route.children parent = Some kids ∧
    last kids = Some closing ∧
    Route.redirectTo closing = Some target ∧
    Route.redirectTo root = Some ("/" +:+ parentPath +:+ "/" +:+ target).
Proof.
  apply (generateRoutes_root_redirect_composes Readme.store 5 Readme.APP_TABS
           (Tab.mk "home" "Home" "home-outline" "/tabs/home" Readme.HomePage));
    reflexivity.
Defined.

Lemma strip_tabs_prefixed_inj (s1 s2 : string) :
  starts_with "/tabs/" s1 = true → starts_with "/tabs/" s2 = true →
  strip_tabs s1 = strip_tabs s2 → s1 = s2.
Proof.
  intros H1%starts_with_split H2%starts_with_split.
  remember (string_drop (String.length "/tabs/") s1) as r1.
  remember (string_drop (String.length "/tabs/") s2) as r2.
  rewrite H1, H2, !strip_tabs_prefix. by intros ->.
Qed.

(** X5: when every [urlPath] starts with ['/tabs/'] and no two descriptors
    have the same [urlPath], no two per-descriptor children have the same
    path. *)
Theorem generateRoutes_distinct_paths (σ : State) (l : loc) (D : list Tab) :
  heap σ !! l = Some D → D ≠ [] →
  Forall (λ d, starts_with "/tabs/" (Tab.urlPath d) = true) D →
  NoDup (Tab.urlPath <$> D) →
  ∃ parent root kids closing,
    (generateRoutes l σ).1 = Normal [parent; root] ∧
    Route.children parent = Some (kids ++ [closing]) ∧
    length kids = length D ∧
    NoDup (Route.path <$> kids).
Proof.
  intros Hl Hne Hprefix Hnodup. destruct D as [|d D]; [done|].
  rewrite (generateRoutes_nonempty σ l d D Hl).
  eexists _, _, (child_entry <$> d :: D), _.
  split; [done|]. split; [done|]. split; [by rewrite length_fmap|].
  rewrite <- list_fmap_compose.
  change (Route.path ∘ child_entry) with ((Some ∘ strip_tabs) ∘ Tab.urlPath).
  rewrite list_fmap_compose.
  apply NoDup_fmap_2_strong; [|done].
  intros s1 s2 (d1 & -> & Hd1)%list_elem_of_fmap (d2 & -> & Hd2)%list_elem_of_fmap
         [= Heq].
  rewrite Forall_forall in Hprefix.
  apply strip_tabs_prefixed_inj; auto.
Qed.

Lemma generateRoutes_distinct_paths_witness :
  ∃ parent root kids closing,
    (generateRoutes 5 Readme.store).1 = Normal [parent; root] ∧
    Route.children parent = Some (kids ++ [closing]) ∧
    length kids = length Readme.APP_TABS ∧
    NoDup (Route.path <$> kids).
Proof.
  apply (generateRoutes_distinct_paths Readme.store 5 Readme.APP_TABS).
  - reflexivity.
  - discriminate.
  - repeat constructor.
  - apply (bool_decide_unpack _). reflexivity.
Defined.

(** Without the prefix two different paths can give the same child path. *)
Example strip_tabs_collision : strip_tabs "x/tabs/y" = strip_tabs "xy".
Proof. reflexivity. Qed.

(** X6: the route table is built from [urlPath] and [component] alone: two
    arrays that agree on these, descriptor by descriptor, give the same
    children and the same root redirect, whatever their [name], [label]
    and [iconName]. *)
Theorem generateRoutes_reads_path_and_component
    (σ1 σ2 : State) (l1 l2 : loc) (D1 D2 : list Tab) :
  heap σ1 !! l1 = Some D1 → heap σ2 !! l2 = Some D2 → D1 ≠ [] →
  (λ d, (Tab.urlPath d, Tab.component d)) <$> D1 =
    (λ d, (Tab.urlPath d, Tab.component d)) <$> D2 →
  ∃ parent1 parent2 root,
    (generateRoutes l1 σ1).1 = Normal [parent1; root] ∧
    (generateRoutes l2 σ2).1 = Normal [parent2; root] ∧
    Route.children parent1 = Route.children parent2 ∧
    is_Some (Route.children parent1).
Proof.
  intros H1 H2 Hne Hsame.
  destruct D1 as [|d1 D1]; [done|]. destruct D2 as [|d2 D2]; [done|].
  rewrite (generateRoutes_nonempty σ1 l1 d1 D1 H1),
          (generateRoutes_nonempty σ2 l2 d2 D2 H2).
  assert (child_entry <$> d1 :: D1 = child_entry <$> d2 :: D2) as Hkids.
  { change child_entry
      with ((λ p : string * JsValue,
               Route.mk (Some (strip_tabs p.1))
                 (Route.component (view_binding p.2))
                 (Route.loadComponent (view_binding p.2))
                 None None None None) ∘
            (λ d, (Tab.urlPath d, Tab.component d))).
    by rewrite !list_fmap_compose, Hsame. }
  injection Hsame as Hpath _ _.
  rewrite Hkids, Hpath. eexists _, _, _.
  split; [done|]. split; [done|]. split; [done|by eexists].
Qed.

Lemma generateRoutes_reads_path_and_component_witness :
  let relabelled :=
    [ Tab.mk "start" "Start" "star" "/tabs/home" Readme.HomePage;
      Tab.mk "prefs" "Preferences" "cog" "/tabs/settings" Readme.loadSettings ] in
  let σ := mkState {[ 7%positive := relabelled ]} (TabsRef 7) [] [] in
  ∃ parent1 parent2 root,
    (generateRoutes 5 Readme.store).1 = Normal [parent1; root] ∧
    (generateRoutes 7 σ).1 = Normal [parent2; root] ∧
    Route.children parent1 = Route.children parent2 ∧
    is_Some (Route.children parent1).
Proof.
  intros relabelled σ.
  apply (generateRoutes_reads_path_and_component
           Readme.store σ 5 7 Readme.APP_TABS relabelled);
    [reflexivity|reflexivity|discriminate|reflexivity].
Defined.

(** ** Loading a deferred view *)

(** X7: a failure of the loader reaches the caller of [loadComponent] as
    it is: a rejection with the same reason, an exception thrown by the
    loader as the same exception, and a promise that never settles as one
    that never settles. *)
Theorem loadComponent_failures_propagate (ref : JsValue) :
  isLazyComponent ref = Normal true →
  ∃ r ld,
    createComponentRoute ref = Normal r ∧
    Route.loadComponent r = Some ld ∧
    (∀ e, js_call ref = Normal (ReturnsPromise (Rejected e)) →
       call_loader ld = Normal (Rejected e)) ∧
    (∀ e, js_call ref = Normal (Throws e) → call_loader ld = Throw e) ∧
    (js_call ref = Normal (ReturnsPromise Pending) →
       call_loader ld = Normal Pending).
Proof.
  intros Hlazy. exists (deferred_binding ref), (LoadClosure ref).
  rewrite createComponentRoute_eq. unfold view_binding.
  rewrite isLazyComponent_eq in Hlazy. injection Hlazy as ->.
  split; [done|]. split; [done|].
  unfold call_loader. split; [|split].
  - by intros e ->.
  - by intros e ->.
  - by intros ->.
Qed.

Lemma loadComponent_failures_propagate_witness :
  let offline := TypeError "Failed to fetch dynamically imported module" in
  let ref := JsFunction 30 [] (ReturnsPromise (Rejected offline)) in
  ∃ r ld,
    createComponentRoute ref = Normal r ∧
    Route.loadComponent r = Some ld ∧
    call_loader ld = Normal (Rejected offline).
Proof.
  intros offline ref.
  destruct (loadComponent_failures_propagate ref eq_refl)
    as (r & ld & Hr & Hld & Hrej & _).
  exists r, ld. split; [exact Hr|]. split; [exact Hld|].
  apply Hrej. reflexivity.
Defined.

(** X8: a loader whose promise is fulfilled with a primitive (undefined,
    null, a boolean, a number, a string) gives a [loadComponent] whose
    promise is rejected with a TypeError, raised by the test
    ['default' in loaded]; the primitive is never passed on as a view. *)
Theorem loadComponent_rejects_primitive (ref loaded : JsValue) :
  isLazyComponent ref = Normal true →
  js_call ref = Normal (ReturnsPromise (Fulfilled loaded)) →
  properties loaded = None →
  ∃ r ld msg,
    createComponentRoute ref = Normal r ∧
    Route.loadComponent r = Some ld ∧
    call_loader ld = Normal (Rejected (TypeError msg)).
Proof.
  intros Hlazy Hcall Hprim.
  exists (deferred_binding ref), (LoadClosure ref).
  rewrite createComponentRoute_eq. unfold view_binding.
  rewrite isLazyComponent_eq in Hlazy. injection Hlazy as ->.
  unfold call_loader. rewrite Hcall. simpl.
  unfold unwrapDefault, js_in. rewrite Hprim. simpl. by eexists.
Qed.

Lemma loadComponent_rejects_primitive_witness :
  let ref := JsFunction 31 [] (ReturnsPromise (Fulfilled JsUndefined)) in
  ∃ r ld msg,
    createComponentRoute ref = Normal r ∧
    Route.loadComponent r = Some ld ∧
    call_loader ld = Normal (Rejected (TypeError msg)).
Proof.
  intros ref.
  apply (loadComponent_rejects_primitive ref JsUndefined); reflexivity.
Defined.

(** ** Activation of the tab bar *)

Section TabBarFurther.
Context (camelCase : string → string) (allIcons : gmap string JsValue).

Local Abbreviation is_resolved := (resolved camelCase allIcons).
Local Abbreviation icon_map := (icons_of camelCase allIcons).
Local Abbreviation icon_warnings := (warnings_of camelCase allIcons).
Local Abbreviation asset_of := (icon_lookup allIcons).
Local Abbreviation setup := (initializeRequiredIcons camelCase allIcons).
Local Abbreviation activate := (ngOnInit camelCase allIcons).

(** The icon set-up either completes, having printed and registered, or
    throws and leaves the state as it was. *)
Lemma initializeRequiredIcons_cases (σ : State) :
  (∃ l D, this_tabs σ = TabsRef l ∧ heap σ !! l = Some D ∧
          setup σ = (Normal (), after_icons σ (icon_warnings D) (icon_map D ∅))) ∨
  (∃ e, setup σ = (Throw e, σ)).
Proof.
  destruct (this_tabs σ) as [l|v] eqn:Hthis.
  - destruct (heap σ !! l) as [D|] eqn:Hl.
    + left. exists l, D. split; [done|]. split; [done|].
      by apply (initializeRequiredIcons_eq camelCase allIcons σ l D).
    + right. eexists. unfold initializeRequiredIcons, bind, get_this_tabs, read_array.
      by rewrite Hthis, Hl.
  - right. eexists. unfold initializeRequiredIcons, bind, get_this_tabs.
    by rewrite Hthis.
Qed.

Lemma ngOnInit_truthy (data : gmap string RouteDatum) (σ : State) :
  datum_truthy (default (Other JsUndefined) (data !! "tabs")) = true →
  activate data σ =
    setup (mkState (heap σ) (default (Other JsUndefined) (data !! "tabs"))
                   (console σ) (registry σ)).
Proof. intros Htruthy. unfold ngOnInit. by rewrite Htruthy. Qed.

Lemma ngOnInit_falsy (data : gmap string RouteDatum) (σ : State) :
  datum_truthy (default (Other JsUndefined) (data !! "tabs")) = false →
  activate data σ =
    setup (mkState (<[fresh (dom (heap σ)) := []]> (heap σ))
                   (TabsRef (fresh (dom (heap σ)))) (console σ) (registry σ)).
Proof. intros Hfalsy. unfold ngOnInit. by rewrite Hfalsy. Qed.

(** What [activate] runs the set-up on. *)
Lemma ngOnInit_setup (data : gmap string RouteDatum) (σ : State) :
  ∃ h t,
    activate data σ = setup (mkState h t (console σ) (registry σ)) ∧
    (∀ l D, heap σ !! l = Some D → h !! l = Some D) ∧
    (datum_truthy (default (Other JsUndefined) (data !! "tabs")) = true →
       h = heap σ ∧ t = default (Other JsUndefined) (data !! "tabs")).
Proof.
  destruct (datum_truthy (default (Other JsUndefined) (data !! "tabs"))) eqn:Hfound.
  - eexists _, _. split; [by apply ngOnInit_truthy|]. done.
  - eexists _, _. split; [by apply ngOnInit_falsy|]. split; [|done].
    intros l D Hl. rewrite lookup_insert_ne; [done|].
    intros <-.
    pose proof (is_fresh (dom (heap σ))) as Hfresh.
    apply not_elem_of_dom in Hfresh. congruence.
Qed.

Lemma icons_of_proto (D : list Tab) (acc : gmap string JsValue) :
  icon_map D acc !! "__proto__" = acc !! "__proto__".
Proof.
  revert acc. induction D as [|d D IH]; intros acc; simpl; [done|].
  rewrite IH. destruct (is_resolved d); [|done].
  unfold set_prop. case_decide; [done|]. by rewrite lookup_insert_ne.
Qed.

(** The mapping, entry by entry. *)
Lemma icons_of_lookup_iff (D : list Tab) (k : string) (v : JsValue) :
  icon_map D ∅ !! k = Some v ↔
  k ≠ "__proto__" ∧
  (∃ d, d ∈ D ∧ Tab.iconName d = k ∧ is_resolved d = true) ∧
  v = asset_of (camelCase k).
Proof.
  split.
  - intros Hk. split.
    + intros ->. by rewrite icons_of_proto, lookup_empty in Hk.
    + apply icons_of_lookup_Some in Hk as [Hempty|(d & Hd & Hname & Hres & Hv)].
      * by rewrite lookup_empty in Hempty.
      * eauto.
  - intros (Hproto & (d & Hd & <- & Hres) & ->).
    by apply icons_of_resolved.
Qed.

Lemma warnings_of_elem (D : list Tab) (n : string) :
  ("Icon not found: " +:+ n) ∈ icon_warnings D ↔
  ∃ d, d ∈ D ∧ Tab.iconName d = n ∧ is_resolved d = false.
Proof.
  unfold warnings_of. rewrite list_elem_of_fmap. split.
  - intros (d & Hmsg & [Hres Hd]%list_elem_of_filter).
    apply (inj (String.app "Icon not found: ")) in Hmsg. eauto.
  - intros (d & Hd & <- & Hres). exists d. split; [done|].
    by apply list_elem_of_filter.
Qed.

Lemma resolved_by_name (d d' : Tab) :
  Tab.iconName d = Tab.iconName d' → is_resolved d = is_resolved d'.
Proof. unfold resolved. by intros ->. Qed.

Lemma icons_of_size (D : list Tab) (acc : gmap string JsValue) :
  (size (icon_map D acc) ≤
     size acc + length (filter (λ d, is_resolved d = true) D))%nat.
Proof.
  revert acc. induction D as [|d D IH]; intros acc; simpl; [lia|].
  etrans; [apply IH|].
  destruct (is_resolved d) eqn:Hres.
  - rewrite filter_cons_True by done. simpl.
    unfold set_prop. case_decide; [lia|].
    destruct (acc !! Tab.iconName d) eqn:Hacc.
    + rewrite map_size_insert_Some by eauto. lia.
    + rewrite map_size_insert_None by done. lia.
  - rewrite filter_cons_False by congruence. lia.
Qed.

Lemma resolved_partition (D : list Tab) :
  (length (filter (λ d, is_resolved d = true) D) + length (icon_warnings D))%nat =
    length D.
Proof.
  unfold warnings_of. rewrite length_fmap.
  induction D as [|d D IH]; [done|].
  destruct (is_resolved d) eqn:Hres.
  - rewrite filter_cons_True, (filter_cons_False (λ d, is_resolved d = false))
      by congruence. simpl. lia.
  - rewrite filter_cons_False, (filter_cons_True (λ d, is_resolved d = false))
      by congruence. simpl. lia.
Qed.

(** X9: activation leaves every descriptor array of the store as it is,
    whether it completes or throws; when the value under ['tabs'] is
    truthy it allocates nothing, so the store is the same afterwards. *)
Theorem ngOnInit_preserves_arrays (data : gmap string RouteDatum) (σ : State) :
  (∀ l D, heap σ !! l = Some D → heap (activate data σ).2 !! l = Some D) ∧
  (∀ v, data !! "tabs" = Some v → datum_truthy v = true →
     heap (activate data σ).2 = heap σ).
Proof.
  destruct (ngOnInit_setup data σ) as (h & t & -> & Hkeep & Htruthy).
  assert (heap (setup (mkState h t (console σ) (registry σ))).2 = h) as Hheap.
  { destruct (initializeRequiredIcons_cases (mkState h t (console σ) (registry σ)))
      as [(l & D & _ & _ & ->)|[e ->]]; done. }
  rewrite Hheap. split; [done|].
  intros v Hv Hvt. rewrite Hv in Htruthy. by destruct (Htruthy Hvt).
Qed.

(** X10: an activation that completes has called [addIcons] exactly once,
    after its warnings; one that throws has not called [addIcons]. *)
Theorem ngOnInit_registers_once (data : gmap string RouteDatum) (σ : State) :
  ((activate data σ).1 = Normal () →
     ∃ warnings icons,
       console (activate data σ).2 = console σ ++ warnings ∧
       registry (activate data σ).2 = registry σ ++ [icons]) ∧
  (∀ e, (activate data σ).1 = Throw e →
     registry (activate data σ).2 = registry σ).
Proof.
  destruct (ngOnInit_setup data σ) as (h & t & -> & _ & _).
  destruct (initializeRequiredIcons_cases (mkState h t (console σ) (registry σ)))
    as [(l & D & _ & _ & ->)|[e ->]]; simpl.
  - split; [by eexists _, _|done].
  - split; [done|]. by intros e' _.
Qed.

(** X11: a truthy primitive under ['tabs'] (a number, a string, [true]) is
    stored in the [tabs] field, and the set-up then throws a TypeError,
    having printed and registered nothing. *)
Theorem ngOnInit_truthy_primitive
    (data : gmap string RouteDatum) (σ : State) (v : JsValue) :
  data !! "tabs" = Some (Other v) → truthy v = true → properties v = None →
  ∃ msg,
    activate data σ =
      (Throw (TypeError msg), mkState (heap σ) (Other v) (console σ) (registry σ)).
Proof.
  intros Hv Htruthy _. rewrite ngOnInit_truthy by (by rewrite Hv).
  rewrite Hv. by eexists.
Qed.

(** X12: the route table and the component fit together: activated with
    the [data] of the parent route that [generateRoutes] built from the
    array at [l], the component holds that same array, by address, and the
    activation completes. *)
Theorem ngOnInit_after_generateRoutes (σ : State) (l : loc) (D : list Tab) :
  heap σ !! l = Some D → D ≠ [] →
  ∃ parent root data warnings icons,
    generateRoutes l σ = (Normal [parent; root], σ) ∧
    Route.data parent = Some data ∧
    activate data σ =
      (Normal (),
       after_icons (mkState (heap σ) (TabsRef l) (console σ) (registry σ))
                   warnings icons).
Proof.
  intros Hl Hne. destruct D as [|d D]; [done|].
  rewrite (generateRoutes_nonempty σ l d D Hl).
  eexists _, _, _, _, _. split; [done|]. split; [done|].
  rewrite ngOnInit_truthy by (by rewrite lookup_singleton_eq).
  rewrite lookup_singleton_eq. simpl.
  by apply (initializeRequiredIcons_eq camelCase allIcons _ l (d :: D)).
Qed.

(** ** Icon registration *)

(** X13: every descriptor is accounted for, whatever the catalog holds: a
    descriptor whose [iconName] is not [__proto__] is either warned about
    and absent from the mapping, or registered and not warned about. *)
Theorem initializeRequiredIcons_warned_or_registered
    (σ : State) (l : loc) (D : list Tab) :
  this_tabs σ = TabsRef l → heap σ !! l = Some D →
  ∃ warnings icons,
    setup σ = (Normal (), after_icons σ warnings icons) ∧
    ∀ d, d ∈ D → Tab.iconName d ≠ "__proto__" →
      (("Icon not found: " +:+ Tab.iconName d) ∈ warnings ∧
       icons !! Tab.iconName d = None) ∨
      ((("Icon not found: " +:+ Tab.iconName d) ∉ warnings) ∧
       is_Some (icons !! Tab.iconName d)).
Proof.
  intros Hthis Hl. exists (icon_warnings D), (icon_map D ∅).
  split; [by apply (initializeRequiredIcons_eq camelCase allIcons σ l D)|].
  intros d Hd Hproto. destruct (is_resolved d) eqn:Hres.
  - right. split.
    + intros (d' & _ & Hname & Hres')%warnings_of_elem.
      rewrite (resolved_by_name d' d Hname) in Hres'. congruence.
    + rewrite icons_of_resolved by done. by eexists.
  - left. split.
    + apply warnings_of_elem. eauto.
    + destruct (icon_map D ∅ !! Tab.iconName d) as [v|] eqn:Hv; [|done].
      apply icons_of_lookup_iff in Hv as (_ & (d' & _ & Hname & Hres') & _).
      rewrite (resolved_by_name d' d Hname) in Hres'. congruence.
Qed.

(** X14: the registered mapping depends on the set of icon names only, not
    on the order of the descriptors nor on how often a name occurs: two
    arrays with the same icon names register the same mapping. *)
Theorem initializeRequiredIcons_order_independent
    (σ1 σ2 : State) (l1 l2 : loc) (D1 D2 : list Tab) :
  this_tabs σ1 = TabsRef l1 → heap σ1 !! l1 = Some D1 →
  this_tabs σ2 = TabsRef l2 → heap σ2 !! l2 = Some D2 →
  (∀ n, n ∈ Tab.iconName <$> D1 ↔ n ∈ Tab.iconName <$> D2) →
  ∃ warnings1 warnings2 icons,
    setup σ1 = (Normal (), after_icons σ1 warnings1 icons) ∧
    setup σ2 = (Normal (), after_icons σ2 warnings2 icons).
Proof.
  intros Ht1 Hl1 Ht2 Hl2 Hnames.
  exists (icon_warnings D1), (icon_warnings D2), (icon_map D1 ∅).
  split; [by apply (initializeRequiredIcons_eq camelCase allIcons σ1 l1 D1)|].
  rewrite (initializeRequiredIcons_eq camelCase allIcons σ2 l2 D2) by done.
  assert (icon_map D2 ∅ = icon_map D1 ∅) as ->; [|done].
  apply map_eq. intros k. apply option_eq. intros v.
  assert (∀ Da Db, (∀ n, n ∈ Tab.iconName <$> Da → n ∈ Tab.iconName <$> Db) →
            icon_map Da ∅ !! k = Some v → icon_map Db ∅ !! k = Some v) as Hmono.
  { intros Da Db Hsub (Hproto & (d & Hd & Hname & Hres) & Hv)%icons_of_lookup_iff.
    apply icons_of_lookup_iff. split; [done|]. split; [|done].
    assert (k ∈ Tab.iconName <$> Db) as (d' & Hname' & Hd')%list_elem_of_fmap.
    { apply Hsub, list_elem_of_fmap. eauto. }
    exists d'. split; [done|]. split; [done|].
    rewrite <- Hres. apply resolved_by_name. congruence. }
  split; apply Hmono; intros n; apply Hnames.
Qed.

(** X15: the catalog test is a truthiness test: a descriptor whose
    converted name has a catalog entry that is falsy (an empty string, for
    one) is treated as missing: warned about and left out of the
    mapping. *)
Theorem initializeRequiredIcons_falsy_asset
    (σ : State) (l : loc) (D : list Tab) (d : Tab) (asset : JsValue) :
  this_tabs σ = TabsRef l → heap σ !! l = Some D → d ∈ D →
  allIcons !! camelCase (Tab.iconName d) = Some asset → truthy asset = false →
  ∃ warnings icons,
    setup σ = (Normal (), after_icons σ warnings icons) ∧
    ("Icon not found: " +:+ Tab.iconName d) ∈ warnings ∧
    icons !! Tab.iconName d = None.
Proof.
  intros Hthis Hl Hd Hasset Hfalsy. exists (icon_warnings D), (icon_map D ∅).
  split; [by apply (initializeRequiredIcons_eq camelCase allIcons σ l D)|].
  assert (is_resolved d = false) as Hres.
  { unfold resolved, icon_lookup. by rewrite Hasset. }
  split.
  - apply warnings_of_elem. eauto.
  - destruct (icon_map D ∅ !! Tab.iconName d) as [v|] eqn:Hv; [|done].
    apply icons_of_lookup_iff in Hv as (_ & (d' & _ & Hname & Hres') & _).
    rewrite (resolved_by_name d' d Hname) in Hres'. congruence.
Qed.

(** X16: the mapping never has the key [__proto__]: a descriptor of that
    name whose icon is found is neither registered nor warned about. *)
Theorem initializeRequiredIcons_proto_dropped
    (σ : State) (l : loc) (D : list Tab) :
  this_tabs σ = TabsRef l → heap σ !! l = Some D →
  ∃ warnings icons,
    setup σ = (Normal (), after_icons σ warnings icons) ∧
    icons !! "__proto__" = None ∧
    (∀ asset, allIcons !! camelCase "__proto__" = Some asset →
       truthy asset = true → "Icon not found: __proto__" ∉ warnings).
Proof.
  intros Hthis Hl. exists (icon_warnings D), (icon_map D ∅).
  split; [by apply (initializeRequiredIcons_eq camelCase allIcons σ l D)|].
  split; [by rewrite icons_of_proto|].
  intros asset Hasset Htruthy.
  change "Icon not found: __proto__" with ("Icon not found: " +:+ "__proto__").
  intros (d & _ & Hname & Hres)%warnings_of_elem.
  unfold resolved, icon_lookup in Hres. rewrite Hname, Hasset in Hres.
  simpl in Hres. congruence.
Qed.

(** X17: the mapping has at most one entry per descriptor that was not
    warned about: its size and the number of warnings add up to at most
    the number of descriptors, and there is exactly one warning for each
    descriptor whose icon is not resolved. *)
Theorem initializeRequiredIcons_counts (σ : State) (l : loc) (D : list Tab) :
  this_tabs σ = TabsRef l → heap σ !! l = Some D →
  ∃ warnings icons,
    setup σ = (Normal (), after_icons σ warnings icons) ∧
    (size icons + length warnings ≤ length D)%nat ∧
    length warnings =
      length (filter (λ d, truthy (asset_of (camelCase (Tab.iconName d))) = false) D).
Proof.
  intros Hthis Hl. exists (icon_warnings D), (icon_map D ∅).
  split; [by apply (initializeRequiredIcons_eq camelCase allIcons σ l D)|].
  split.
  - pose proof (icons_of_size D ∅) as Hsize. rewrite map_size_empty in Hsize.
    pose proof (resolved_partition D). lia.
  - unfold warnings_of. by rewrite length_fmap.
Qed.

(** X18: running the set-up a second time prints the same warnings again
    and registers the same mapping again; nothing is remembered from the
    first run. *)
Theorem initializeRequiredIcons_twice (σ : State) (l : loc) (D : list Tab) :
  this_tabs σ = TabsRef l → heap σ !! l = Some D →
  ∃ warnings icons,
    setup σ = (Normal (), after_icons σ warnings icons) ∧
    (setup ;;; setup) σ =
      (Normal (),
       mkState (heap σ) (this_tabs σ) (console σ ++ warnings ++ warnings)
               (registry σ ++ [icons; icons])).
Proof.
  intros Hthis Hl. exists (icon_warnings D), (icon_map D ∅).
  split; [by apply (initializeRequiredIcons_eq camelCase allIcons σ l D)|].
  unfold bind.
  rewrite (initializeRequiredIcons_eq camelCase allIcons σ l D) by done.
  rewrite (initializeRequiredIcons_eq camelCase allIcons _ l D) by done.
  unfold after_icons. simpl. by rewrite <- !app_assoc.
Qed.
End TabBarFurther.

Lemma ngOnInit_preserves_arrays_witness :
  heap (ngOnInit Readme.camelCase Readme.allIcons ∅ Readme.store).2 !! 5%positive =
    Some Readme.APP_TABS ∧
  heap (ngOnInit Readme.camelCase Readme.allIcons
          {[ "tabs" := TabsRef 5 ]} Readme.store).2 = heap Readme.store.
Proof.
  split.
  - apply (proj1 (ngOnInit_preserves_arrays Readme.camelCase Readme.allIcons
                    ∅ Readme.store)).
    reflexivity.
  - apply (proj2 (ngOnInit_preserves_arrays Readme.camelCase Readme.allIcons
                    {[ "tabs" := TabsRef 5 ]} Readme.store) (TabsRef 5));
      reflexivity.
Defined.

Lemma ngOnInit_registers_once_witness :
  (∃ warnings icons,
     console (ngOnInit Readme.camelCase Readme.allIcons
                {[ "tabs" := TabsRef 5 ]} Readme.store).2 =
       console Readme.store ++ warnings ∧
     registry (ngOnInit Readme.camelCase Readme.allIcons
                 {[ "tabs" := TabsRef 5 ]} Readme.store).2 =
       registry Readme.store ++ [icons]) ∧
  registry (ngOnInit Readme.camelCase Readme.allIcons
              {[ "tabs" := Other (JsString "home") ]} Readme.store).2 =
    registry Readme.store.
Proof.
  split.
  - apply (proj1 (ngOnInit_registers_once Readme.camelCase Readme.allIcons
                    {[ "tabs" := TabsRef 5 ]} Readme.store)).
    reflexivity.
  - apply (proj2 (ngOnInit_registers_once Readme.camelCase Readme.allIcons
                    {[ "tabs" := Other (JsString "home") ]} Readme.store)
             (TypeError "this.tabs.reduce is not a function")).
    reflexivity.
Defined.

Lemma ngOnInit_truthy_primitive_witness :
  ∃ msg,
    ngOnInit Readme.camelCase Readme.allIcons
      {[ "tabs" := Other (JsNumber 5) ]} Readme.store =
      (Throw (TypeError msg),
       mkState (heap Readme.store) (Other (JsNumber 5))
               (console Readme.store) (registry Readme.store)).
Proof.
  apply (ngOnInit_truthy_primitive Readme.camelCase Readme.allIcons
           {[ "tabs" := Other (JsNumber 5) ]} Readme.store (JsNumber 5));
    reflexivity.
Defined.

Lemma ngOnInit_after_generateRoutes_witness :
  ∃ parent root data warnings icons,
    generateRoutes 5 Readme.store = (Normal [parent; root], Readme.store) ∧
    Route.data parent = Some data ∧
    ngOnInit Readme.camelCase Readme.allIcons data Readme.store =
      (Normal (),
       after_icons (mkState (heap Readme.store) (TabsRef 5)
                            (console Readme.store) (registry Readme.store))
                   warnings icons).
Proof.
  apply (ngOnInit_after_generateRoutes Readme.camelCase Readme.allIcons
           Readme.store 5 Readme.APP_TABS); [reflexivity|discriminate].
Defined.

Lemma initializeRequiredIcons_warned_or_registered_witness :
  ∃ warnings icons,
    initializeRequiredIcons Readme.camelCase Readme.allIcons Readme.store =
      (Normal (), after_icons Readme.store warnings icons) ∧
    ∀ d, d ∈ Readme.APP_TABS → Tab.iconName d ≠ "__proto__" →
      (("Icon not found: " +:+ Tab.iconName d) ∈ warnings ∧
       icons !! Tab.iconName d = None) ∨
      ((("Icon not found: " +:+ Tab.iconName d) ∉ warnings) ∧
       is_Some (icons !! Tab.iconName d)).
Proof.
  apply (initializeRequiredIcons_warned_or_registered
           Readme.camelCase Readme.allIcons Readme.store 5 Readme.APP_TABS);
    reflexivity.
Defined.

Lemma initializeRequiredIcons_order_independent_witness :
  let home := Tab.mk "home" "Home" "home-outline" "/tabs/home" Readme.HomePage in
  let settings := Tab.mk "settings" "Settings" "settings-outline" "/tabs/settings"
                    Readme.loadSettings in
  let σ2 := mkState {[ 7%positive := [settings; home; home] ]} (TabsRef 7) [] [] in
  ∃ warnings1 warnings2 icons,
    initializeRequiredIcons Readme.camelCase Readme.allIcons Readme.store =
      (Normal (), after_icons Readme.store warnings1 icons) ∧
    initializeRequiredIcons Readme.camelCase Readme.allIcons σ2 =
      (Normal (), after_icons σ2 warnings2 icons).
Proof.
  intros home settings σ2.
  apply (initializeRequiredIcons_order_independent
           Readme.camelCase Readme.allIcons Readme.store σ2 5 7
           Readme.APP_TABS [settings; home; home]);
    [reflexivity|reflexivity|reflexivity|reflexivity|].
  intros n. simpl. rewrite !elem_of_cons. tauto.
Defined.

Lemma initializeRequiredIcons_falsy_asset_witness :
  let blank : gmap string JsValue := {[ "homeOutline" := JsString "" ]} in
  ∃ warnings icons,
    initializeRequiredIcons Readme.camelCase blank Readme.store =
      (Normal (), after_icons Readme.store warnings icons) ∧
    ("Icon not found: " +:+ "home-outline") ∈ warnings ∧
    icons !! "home-outline" = None.
Proof.
  intros blank.
  apply (initializeRequiredIcons_falsy_asset Readme.camelCase blank
           Readme.store 5 Readme.APP_TABS
           (Tab.mk "home" "Home" "home-outline" "/tabs/home" Readme.HomePage)
           (JsString ""));
    [reflexivity|reflexivity|left|reflexivity|reflexivity].
Defined.

Lemma initializeRequiredIcons_proto_dropped_witness :
  let catalog : gmap string JsValue := {[ "proto" := JsString "data:image/svg+xml" ]} in
  let σ := mkState {[ 8%positive :=
                       [Tab.mk "p" "P" "__proto__" "/tabs/p" Readme.HomePage] ]}
                   (TabsRef 8) [] [] in
  ∃ warnings icons,
    initializeRequiredIcons Readme.camelCase catalog σ =
      (Normal (), after_icons σ warnings icons) ∧
    icons !! "__proto__" = None ∧
    (∀ asset, catalog !! Readme.camelCase "__proto__" = Some asset →
       truthy asset = true → "Icon not found: __proto__" ∉ warnings).
Proof.
  intros catalog σ.
  apply (initializeRequiredIcons_proto_dropped Readme.camelCase catalog σ 8
           [Tab.mk "p" "P" "__proto__" "/tabs/p" Readme.HomePage]);
    reflexivity.
Defined.

Lemma initializeRequiredIcons_counts_witness :
  ∃ warnings icons,
    initializeRequiredIcons Readme.camelCase Readme.allIcons Readme.store =
      (Normal (), after_icons Readme.store warnings icons) ∧
    (size icons + length warnings ≤ length Readme.APP_TABS)%nat ∧
    length warnings =
      length (filter (λ d, truthy (icon_lookup Readme.allIcons
                                     (Readme.camelCase (Tab.iconName d))) = false)
                     Readme.APP_TABS).
Proof.
  apply (initializeRequiredIcons_counts Readme.camelCase Readme.allIcons
           Readme.store 5 Readme.APP_TABS); reflexivity.
Defined.

Lemma initializeRequiredIcons_twice_witness :
  ∃ warnings icons,
    initializeRequiredIcons Readme.camelCase Readme.allIcons Readme.store =
      (Normal (), after_icons Readme.store warnings icons) ∧
    (initializeRequiredIcons Readme.camelCase Readme.allIcons ;;;
     initializeRequiredIcons Readme.camelCase Readme.allIcons) Readme.store =
      (Normal (),
       mkState (heap Readme.store) (this_tabs Readme.store)
               (console Readme.store ++ warnings ++ warnings)
               (registry Readme.store ++ [icons; icons])).
Proof.
  apply (initializeRequiredIcons_twice Readme.camelCase Readme.allIcons
           Readme.store 5 Readme.APP_TABS); reflexivity.
Defined.
